(** * MechAFM force field: interaction kernels and the spectral force builder

    A shallow embedding of [src/interactions.cpp].

    - C++ [double] is IEEE 754 binary64: Rocq's primitive [float], with the
      operations evaluated strictly in source order (no contraction into
      fused multiply-add, no re-association).
    - [std::vector] is a [list]; [v[i]] outside the vector is undefined
      behaviour in C++ and is modelled by [None]: every kernel runs in the
      [option] monad and fails as soon as it touches a missing entry.
    - The wavenumber vectors of the lattice builder are the exception: the
      source only calls [reserve] on them, so they stay empty and every
      subscript on them lands in the reserved storage, outside the vector.
      They are modelled with their storage ([vector]): the size stays 0, a
      subscript addresses a cell of the reserved block, a cell that has not
      been written holds nothing, and only a subscript outside the block
      is [None].
    - Particle indices are C++ [int]s used as vector subscripts; a negative
      one is as much out of range as one past the end, so they are [nat].
    - The mathematical library ([exp], [pow], [acos], [sin], [atan]), the
      constants of [globals.hpp], the lattice interpolation of
      [force_grid.hpp], the transforms of [fft.hpp] and the addressing of
      [data_grid.hpp] are not part of [src/]; they are parameters of the
      development (Section variables). *)

From Stdlib Require Import ZArith Lia Floats.
From stdpp Require Import base option list.

Abbreviation double := float.

(** ** Vectors ([vectors.hpp]) *)

(** Modelled from the spec: [vectors.hpp] is not in [src/]. "3D vectors ...
    assumed given": the operations are the componentwise ones, a sum of three
    products is accumulated left to right, and the default constructor is the
    zero vector ("zero when r below a small tolerance"). *)
Module Vec2d.
Record t : Type := mk { x : double; y : double }.

Definition zero : t := mk 0 0.
Definition sub (a b : t) : t := mk (x a - x b) (y a - y b).
Definition scale (s : double) (a : t) : t := mk (s * x a) (s * y a).
Definition lensqr (a : t) : double := (x a * x a + y a * y a)%float.
Definition len (a : t) : double := PrimFloat.sqrt (lensqr a).
End Vec2d.

Module Vec3d.
Record t : Type := mk { x : double; y : double; z : double }.

Definition zero : t := mk 0 0 0.
Definition of_xy (p : Vec2d.t) (z0 : double) : t := mk (Vec2d.x p) (Vec2d.y p) z0.
Definition getXY (a : t) : Vec2d.t := Vec2d.mk (x a) (y a).
Definition add (a b : t) : t := mk (x a + x b) (y a + y b) (z a + z b).
Definition sub (a b : t) : t := mk (x a - x b) (y a - y b) (z a - z b).
Definition opp (a : t) : t := mk (- x a) (- y a) (- z a).
Definition scale (s : double) (a : t) : t := mk (s * x a) (s * y a) (s * z a).
Definition mul (a : t) (s : double) : t := mk (x a * s) (y a * s) (z a * s).
Definition div (a : t) (s : double) : t := mk (x a / s) (y a / s) (z a / s).
Definition dot (a b : t) : double := (x a * x b + y a * y b + z a * z b)%float.
Definition cross (a b : t) : t :=
  mk (y a * z b - z a * y b) (z a * x b - x a * z b) (x a * y b - y a * x b).
Definition lensqr (a : t) : double := dot a a.
Definition len (a : t) : double := PrimFloat.sqrt (lensqr a).
Definition set_z (a : t) (v : double) : t := mk (x a) (y a) v.
End Vec3d.

Abbreviation Vec3d := Vec3d.t.
Abbreviation Vec2d := Vec2d.t.

(** ** Accumulators *)

(** [forces[i] += f] *)
Definition force_add (i : nat) (f : Vec3d) (forces : list Vec3d) : option (list Vec3d) :=
  old ← forces !! i; Some (<[i := Vec3d.add old f]> forces).

(** [forces[i] -= f] *)
Definition force_sub (i : nat) (f : Vec3d) (forces : list Vec3d) : option (list Vec3d) :=
  old ← forces !! i; Some (<[i := Vec3d.sub old f]> forces).

(** [forces[i].z += v] *)
Definition force_add_z (i : nat) (v : double) (forces : list Vec3d) : option (list Vec3d) :=
  old ← forces !! i; Some (<[i := Vec3d.set_z old (Vec3d.z old + v)]> forces).

(** [energies[i] += e] *)
Definition energy_add (i : nat) (e : double) (energies : list double) : option (list double) :=
  old ← energies !! i; Some (<[i := (old + e)%float]> energies).

(** Lattice sizes and node indices are C++ [int]s; the loops below only ever
    hold values from 0 up to a lattice size, so they are [nat] here. *)
Module Vec3i.
Record t : Type := mk { x : nat; y : nat; z : nat }.
End Vec3i.

Abbreviation Vec3i := Vec3i.t.

(** ** The force grid ([force_grid.hpp]) *)

(** Modelled from the spec: [force_grid.hpp] is not in [src/]. "A
    lattice-shaped structure of parallel force-vector and energy-scalar
    fields, spacing, offset (origin), and a periodic flag"; the member names
    are those the constructor of [ElectrostaticPotentialInteraction] uses. *)
Record ForceGrid : Type := mkForceGrid {
  grid_points_ : Vec3i;
  spacing_ : Vec3d;
  offset_ : Vec3d;
  periodic_ : bool;
  forces_ : list Vec3d;
  energies_ : list double
}.

(** ** The interaction kernels *)

(** One constructor per class of [interactions.cpp], holding the members its
    [eval] reads. *)
Inductive Interaction : Type :=
| LJInteraction (atom_i1_ atom_i2_ : nat) (es12_ es6_ : double)
| MorseInteraction (atom_i1_ atom_i2_ : nat) (de_ a_ re_ : double)
| CoulombInteraction (atom_i1_ atom_i2_ : nat) (qq_ : double)
| ElectrostaticPotentialInteraction (force_grid_ : ForceGrid)
| GridInteraction (force_grid_ : ForceGrid)
| TipHarmonicInteraction (atom_i1_ atom_i2_ : nat) (k_ r0_ : double)
| XYHarmonicInteraction (atom_i_ : nat) (k_ : double) (p0_ : Vec2d)
| SubstrateInteraction (atom_i_ : nat) (z0_ sig_ rc_ multiplier_ ulj_ ushift_ : double)
| HarmonicInteraction (atom_i1_ atom_i2_ : nat) (k_ r0_ : double)
| HarmonicAngleInteraction (atom_i1_ atom_i2_ shared_i_ : nat) (k_ theta0_ : double)
| HarmonicDihedralInteraction (atom_i1_ atom_i2_ atom_i3_ atom_i4_ : nat) (k_ sigma0_ : double).

Section Kernels.

(** [<cmath>] *)
Variable exp : double -> double.
Variable pow : double -> double -> double.
Variable acos : double -> double.
Variable sin : double -> double.
Variable atan : double -> double.

(** [globals.hpp] *)
Variable TOLERANCE : double.

(** [ForceGrid::interpolate(position, force, energy)], with its two output
    arguments returned as a pair. *)
Variable interpolate : ForceGrid -> Vec3d -> Vec3d * double.

(** *** Pair kernels: the energy [e] and the force [f] of one call *)

Definition LJ_e_f (es12_ es6_ : double) (p1 p2 : Vec3d) : double * Vec3d :=
  let r_vec := Vec3d.sub p1 p2 in
  let r_sqr := Vec3d.lensqr r_vec in
  let r6 := (r_sqr * r_sqr * r_sqr)%float in
  let term_a := (es12_ / (r6 * r6))%float in
  let term_b := (es6_ / r6)%float in
  let e := (term_a - term_b)%float in
  let f := Vec3d.scale ((12 * term_a - 6 * term_b) / r_sqr)%float r_vec in
  (e, f).

Definition Morse_e_f (de_ a_ re_ : double) (p1 p2 : Vec3d) : double * Vec3d :=
  let r_vec := Vec3d.sub p1 p2 in
  let r := Vec3d.len r_vec in
  let d_exp := exp (- a_ * (r - re_))%float in
  let e := (de_ * (pow d_exp 2 - 2 * d_exp + 1))%float in
  let f_abs := (2 * de_ * a_ * (pow d_exp 2 - d_exp))%float in
  let f := Vec3d.scale (f_abs / r)%float r_vec in
  (e, f).

Definition Coulomb_e_f (qq_ : double) (p1 p2 : Vec3d) : double * Vec3d :=
  let r_vec := Vec3d.sub p1 p2 in
  let r := Vec3d.len r_vec in
  let e := (qq_ / r)%float in
  let f := Vec3d.scale (qq_ / (r * r * r))%float r_vec in
  (e, f).

(** The in-plane length that the planar tip restraint divides by. *)
Definition TipHarmonic_r (p1 p2 : Vec3d) : double :=
  Vec2d.len (Vec3d.getXY (Vec3d.sub p1 p2)).

Definition TipHarmonic_e_f (k_ r0_ : double) (p1 p2 : Vec3d) : double * Vec3d :=
  let r_vec := Vec3d.sub p1 p2 in
  let r_2d := Vec3d.getXY r_vec in
  let r := Vec2d.len r_2d in
  let dr := (r - r0_)%float in
  let e := (k_ * dr * dr)%float in
  let f := if (TOLERANCE <? r)%float
           then Vec3d.of_xy (Vec2d.scale (-2 * k_ * dr / r)%float r_2d) 0
           else Vec3d.zero in
  (e, f).

Definition XYHarmonic_r (p0_ : Vec2d) (p : Vec3d) : double :=
  Vec2d.len (Vec2d.sub (Vec3d.getXY p) p0_).

Definition XYHarmonic_e_f (k_ : double) (p0_ : Vec2d) (p : Vec3d) : double * Vec3d :=
  let r_2d := Vec2d.sub (Vec3d.getXY p) p0_ in
  let r := Vec2d.len r_2d in
  let e := (k_ * r * r)%float in
  let f := if (TOLERANCE <? r)%float
           then Vec3d.of_xy (Vec2d.scale (-2 * k_)%float r_2d) 0
           else Vec3d.zero in
  (e, f).

Definition Harmonic_e_f (k_ r0_ : double) (p1 p2 : Vec3d) : double * Vec3d :=
  let r_vec := Vec3d.sub p1 p2 in
  let r := Vec3d.len r_vec in
  let dr := (r - r0_)%float in
  let e := (k_ * pow dr 2)%float in
  let f := Vec3d.scale (-2 * k_ * dr / r)%float r_vec in
  (e, f).

(** *** Substrate wall *)

Definition Substrate_dz (z0_ : double) (p : Vec3d) : double := (Vec3d.z p - z0_)%float.

(** The values added to [eterm] and [fterm] inside the cutoff. (The source
    computes the powers of [sig_ / dz] before the test and uses them only
    under it.) *)
Definition Substrate_inner (sig_ multiplier_ ulj_ ushift_ dz : double) : double * double :=
  let sig_z := (sig_ / dz)%float in
  let sig_z2 := (sig_z * sig_z)%float in
  let sig_z4 := (sig_z2 * sig_z2)%float in
  let sig_z10 := (sig_z4 * sig_z4 * sig_z2)%float in
  ((multiplier_ * (2 / 5 * sig_z10 - sig_z4) + ulj_ * dz * dz - ushift_)%float,
   (4 * multiplier_ / dz * (sig_z10 - sig_z4) + 2 * ulj_ * dz)%float).

(** [(eterm, fterm)] at the end of the call. *)
Definition Substrate_terms (z0_ sig_ rc_ multiplier_ ulj_ ushift_ : double) (p : Vec3d)
  : double * double :=
  let dz := Substrate_dz z0_ p in
  let eterm := 0%float in
  let fterm := 0%float in
  if (dz <=? rc_)%float
  then let '(de, df) := Substrate_inner sig_ multiplier_ ulj_ ushift_ dz in
       ((eterm + de)%float, (fterm + df)%float)
  else (eterm, fterm).

(** *** Harmonic angle *)

(** [cos_t] as first computed, before the clamp. *)
Definition HarmonicAngle_cos_ratio (p1 p2 ps : Vec3d) : double :=
  let r1_vec := Vec3d.sub p1 ps in
  let r2_vec := Vec3d.sub p2 ps in
  let r1 := Vec3d.len r1_vec in
  let r2 := Vec3d.len r2_vec in
  (Vec3d.dot r1_vec r2_vec / (r1 * r2))%float.

(** [if (cos_t > 1) cos_t = 1; else if (cos_t < -1) cos_t = -1;] *)
Definition clamp_cos (cos_t : double) : double :=
  if (1 <? cos_t)%float then 1%float
  else if (cos_t <? -1)%float then (-1)%float
  else cos_t.

Definition HarmonicAngle_theta (p1 p2 ps : Vec3d) : double :=
  acos (clamp_cos (HarmonicAngle_cos_ratio p1 p2 ps)).

(** [(e, f1, f2)] *)
Definition HarmonicAngle_e_f (k_ theta0_ : double) (p1 p2 ps : Vec3d)
  : double * Vec3d * Vec3d :=
  let r1_vec := Vec3d.sub p1 ps in
  let r2_vec := Vec3d.sub p2 ps in
  let r1 := Vec3d.len r1_vec in
  let r2 := Vec3d.len r2_vec in
  let cos_t := clamp_cos (HarmonicAngle_cos_ratio p1 p2 ps) in
  let theta := HarmonicAngle_theta p1 p2 ps in
  let sin_t := sin theta in
  let d_theta := (theta - theta0_)%float in
  let f_multiplier := (-2 * k_ * d_theta / sin_t)%float in
  let f1 := Vec3d.scale (- f_multiplier / r1)%float
              (Vec3d.sub (Vec3d.div r2_vec r2) (Vec3d.div (Vec3d.mul r1_vec cos_t) r1)) in
  let f2 := Vec3d.scale (- f_multiplier / r2)%float
              (Vec3d.sub (Vec3d.div r1_vec r1) (Vec3d.div (Vec3d.mul r2_vec cos_t) r2)) in
  let e := (k_ * pow d_theta 2)%float in
  (e, f1, f2).

(** *** Harmonic dihedral: [(e, f1, f2, f3, f4)] *)

Definition HarmonicDihedral_e_f (k_ sigma0_ : double) (p1 p2 p3 p4 : Vec3d)
  : double * Vec3d * Vec3d * Vec3d * Vec3d :=
  let r12_vec := Vec3d.sub p1 p2 in
  let r23_vec := Vec3d.sub p2 p3 in
  let r43_vec := Vec3d.sub p4 p3 in
  let r23 := Vec3d.len r23_vec in
  let m_vec := Vec3d.cross r12_vec r23_vec in
  let n_vec := Vec3d.cross r43_vec r23_vec in
  let m := Vec3d.len m_vec in
  let n := Vec3d.len n_vec in
  let tan_s := (Vec3d.dot n_vec r12_vec * r23 / Vec3d.dot m_vec n_vec)%float in
  let sigma := atan tan_s in
  let d_sigma := (sigma - sigma0_)%float in
  let f_multiplier := (2 * k_ * d_sigma)%float in
  let f1 := Vec3d.scale (- f_multiplier * r23 / (m * m))%float m_vec in
  let f2 := Vec3d.scale (- f_multiplier)%float
              (Vec3d.sub
                 (Vec3d.scale (Vec3d.dot r43_vec r23_vec / (n * n * r23))%float n_vec)
                 (Vec3d.scale ((r23 * r23 + Vec3d.dot r12_vec r23_vec) / (m * m * r23))%float
                    m_vec)) in
  let f3 := Vec3d.scale (- f_multiplier)%float
              (Vec3d.add
                 (Vec3d.scale (Vec3d.dot r12_vec r23_vec / (m * m * r23))%float m_vec)
                 (Vec3d.scale ((r23 * r23 - Vec3d.dot r43_vec r23_vec) / (n * n * r23))%float
                    n_vec)) in
  let f4 := Vec3d.scale (f_multiplier * r23 / (n * n))%float n_vec in
  let e := (k_ * pow d_sigma 2)%float in
  (e, f1, f2, f3, f4).

(** *** [Interaction::eval]

    Each branch reads the positions first and then performs the
    accumulations in the order of the source statements. *)

Definition eval (k : Interaction) (positions : list Vec3d)
    (forces : list Vec3d) (energies : list double)
  : option (list Vec3d * list double) :=
  match k with
  | LJInteraction atom_i1_ atom_i2_ es12_ es6_ =>
      p1 ← positions !! atom_i1_;
      p2 ← positions !! atom_i2_;
      let '(e, f) := LJ_e_f es12_ es6_ p1 p2 in
      energies ← energy_add atom_i1_ e energies;
      energies ← energy_add atom_i2_ e energies;
      forces ← force_add atom_i1_ f forces;
      forces ← force_sub atom_i2_ f forces;
      Some (forces, energies)
  | MorseInteraction atom_i1_ atom_i2_ de_ a_ re_ =>
      p1 ← positions !! atom_i1_;
      p2 ← positions !! atom_i2_;
      let '(e, f) := Morse_e_f de_ a_ re_ p1 p2 in
      energies ← energy_add atom_i1_ e energies;
      energies ← energy_add atom_i2_ e energies;
      forces ← force_add atom_i1_ f forces;
      forces ← force_sub atom_i2_ f forces;
      Some (forces, energies)
  | CoulombInteraction atom_i1_ atom_i2_ qq_ =>
      p1 ← positions !! atom_i1_;
      p2 ← positions !! atom_i2_;
      let '(e, f) := Coulomb_e_f qq_ p1 p2 in
      energies ← energy_add atom_i1_ e energies;
      energies ← energy_add atom_i2_ e energies;
      forces ← force_add atom_i1_ f forces;
      forces ← force_sub atom_i2_ f forces;
      Some (forces, energies)
  | ElectrostaticPotentialInteraction force_grid_ =>
      p ← positions !! 1%nat;
      let '(tip_force, tip_energy) := interpolate force_grid_ p in
      forces ← force_add 1 tip_force forces;
      energies ← energy_add 1 tip_energy energies;
      Some (forces, energies)
  | GridInteraction force_grid_ =>
      p ← positions !! 1%nat;
      let '(tip_force, tip_energy) := interpolate force_grid_ p in
      forces ← force_add 1 tip_force forces;
      energies ← energy_add 1 tip_energy energies;
      Some (forces, energies)
  | TipHarmonicInteraction atom_i1_ atom_i2_ k_ r0_ =>
      p1 ← positions !! atom_i1_;
      p2 ← positions !! atom_i2_;
      let '(e, f) := TipHarmonic_e_f k_ r0_ p1 p2 in
      energies ← energy_add atom_i1_ e energies;
      energies ← energy_add atom_i2_ e energies;
      forces ← force_add atom_i1_ f forces;
      forces ← force_sub atom_i2_ f forces;
      Some (forces, energies)
  | XYHarmonicInteraction atom_i_ k_ p0_ =>
      p ← positions !! atom_i_;
      let '(e, f) := XYHarmonic_e_f k_ p0_ p in
      energies ← energy_add atom_i_ e energies;
      forces ← force_add atom_i_ f forces;
      Some (forces, energies)
  | SubstrateInteraction atom_i_ z0_ sig_ rc_ multiplier_ ulj_ ushift_ =>
      p ← positions !! atom_i_;
      let '(eterm, fterm) := Substrate_terms z0_ sig_ rc_ multiplier_ ulj_ ushift_ p in
      forces ← force_add_z atom_i_ fterm forces;
      energies ← energy_add atom_i_ eterm energies;
      Some (forces, energies)
  | HarmonicInteraction atom_i1_ atom_i2_ k_ r0_ =>
      p1 ← positions !! atom_i1_;
      p2 ← positions !! atom_i2_;
      let '(e, f) := Harmonic_e_f k_ r0_ p1 p2 in
      energies ← energy_add atom_i1_ e energies;
      energies ← energy_add atom_i2_ e energies;
      forces ← force_add atom_i1_ f forces;
      forces ← force_sub atom_i2_ f forces;
      Some (forces, energies)
  | HarmonicAngleInteraction atom_i1_ atom_i2_ shared_i_ k_ theta0_ =>
      p1 ← positions !! atom_i1_;
      ps ← positions !! shared_i_;
      p2 ← positions !! atom_i2_;
      let '(e, f1, f2) := HarmonicAngle_e_f k_ theta0_ p1 p2 ps in
      forces ← force_add atom_i1_ f1 forces;
      forces ← force_add atom_i2_ f2 forces;
      forces ← force_sub shared_i_ (Vec3d.add f1 f2) forces;
      energies ← energy_add atom_i1_ e energies;
      energies ← energy_add atom_i2_ e energies;
      energies ← energy_add shared_i_ e energies;
      Some (forces, energies)
  | HarmonicDihedralInteraction atom_i1_ atom_i2_ atom_i3_ atom_i4_ k_ sigma0_ =>
      p1 ← positions !! atom_i1_;
      p2 ← positions !! atom_i2_;
      p3 ← positions !! atom_i3_;
      p4 ← positions !! atom_i4_;
      let '(e, f1, f2, f3, f4) := HarmonicDihedral_e_f k_ sigma0_ p1 p2 p3 p4 in
      forces ← force_add atom_i1_ f1 forces;
      forces ← force_add atom_i2_ f2 forces;
      forces ← force_add atom_i3_ f3 forces;
      forces ← force_add atom_i4_ f4 forces;
      energies ← energy_add atom_i1_ e energies;
      energies ← energy_add atom_i2_ e energies;
      energies ← energy_add atom_i3_ e energies;
      energies ← energy_add atom_i4_ e energies;
      Some (forces, energies)
  end.

End Kernels.

Arguments LJ_e_f : simpl never.
Arguments Morse_e_f : simpl never.
Arguments Coulomb_e_f : simpl never.
Arguments TipHarmonic_e_f : simpl never.
Arguments XYHarmonic_e_f : simpl never.
Arguments Harmonic_e_f : simpl never.
Arguments Substrate_terms : simpl never.
Arguments HarmonicAngle_e_f : simpl never.
Arguments HarmonicDihedral_e_f : simpl never.

(** ** The spectral force builder

    The constructor of [ElectrostaticPotentialInteraction], from the two
    forward transforms on (source lines 102 to 198). *)

(** [std::complex<double>]: a real factor scales both parts; the product of
    two complex numbers is the four-product formula. (The recovery of
    infinities that C's Annex G adds when both parts of a product come out
    NaN is left out; it concerns non-finite operands only.) *)
Module dcomplex.
Record t : Type := mk { re : double; im : double }.

Definition scale (s : double) (c : t) : t := mk (re c * s) (im c * s).
Definition mul (a b : t) : t :=
  mk (re a * re b - im a * im b) (re a * im b + im a * re b).
End dcomplex.

Abbreviation dcomplex := dcomplex.t.

(** Modelled from the spec: [data_grid.hpp] is not in [src/]. "Dense array of
    values indexed by (ix,iy,iz), with spacing, origin". *)
Record DataGrid (T : Type) : Type := mkDataGrid {
  n_grid : Vec3i;
  spacing : Vec3d;
  origin : Vec3d;
  values : list T
}.

Arguments mkDataGrid {T}.
Arguments n_grid {T}.
Arguments spacing {T}.
Arguments origin {T}.
Arguments values {T}.

Definition setOrigin {T} (g : DataGrid T) (o : Vec3d) : DataGrid T :=
  mkDataGrid (n_grid g) (spacing g) o (values g).

Definition setValues {T} (g : DataGrid T) (vs : list T) : DataGrid T :=
  mkDataGrid (n_grid g) (spacing g) (origin g) vs.

(** [for (int i = first; i < first + count; i++) body] on a state [s]. *)
Fixpoint for_range {S : Type} (first count : nat) (body : nat -> S -> option S) (s : S)
  : option S :=
  match count with
  | O => Some s
  | Datatypes.S count' => s' ← body first s; for_range (Datatypes.S first) count' body s'
  end.

(** The triple loop [for ix ... for iy ... for iz ...] over a lattice. *)
Definition for_nodes {S : Type} (n : Vec3i) (body : nat -> nat -> nat -> S -> option S)
    (s : S) : option S :=
  for_range 0 (Vec3i.x n) (fun ix s =>
    for_range 0 (Vec3i.y n) (fun iy s =>
      for_range 0 (Vec3i.z n) (fun iz s => body ix iy iz s) s) s) s.

(** [int] to [double] *)
Definition of_int (n : nat) : double := PrimFloat.of_uint63 (Uint63.of_Z (Z.of_nat n)).

(** [v[i] = a] on a vector that holds [i]. *)
Definition write {T} (i : nat) (a : T) (v : list T) : option (list T) :=
  _ ← v !! i; Some (<[i := a]> v).

(** A [std::vector<double>] together with its storage: [size] counts the
    elements the vector holds, [cells] is the block allocated for it, a cell
    being [None] until something is stored in it. The subscript [v[i]] makes
    no range check and addresses cell [i] of the block, also when
    [i >= size()]. *)
Module vector.
Record t : Type := mk { size : nat; cells : list (option double) }.

(** [vector<double> v; v.reserve(n);]: a block of [n] cells, no element. *)
Definition reserve (n : nat) : t := mk 0 (replicate n None).

(** The value of [v[i]]: [None] outside the block and at a cell that has
    not been written. *)
Definition get (i : nat) (v : t) : option double := mjoin (cells v !! i).

(** [v[i] = a]: the size is not touched. *)
Definition store (i : nat) (a : double) (v : t) : option t :=
  _ ← cells v !! i; Some (mk (size v) (<[i := Some a]> (cells v))).
End vector.

#[global] Instance vector_lookup : Lookup nat double vector.t := vector.get.

(** The wavenumbers of one axis of [n] nodes (source lines 137 to 144), [sk]
    being the spacing of the reciprocal lattice along that axis. The vector
    is reserved, never resized: the loop stores through the subscript into
    the reserved block. *)
Definition k_points (n : nat) (sk : double) : option vector.t :=
  for_range 0 n (fun ix k_points =>
    k_points ← vector.store ix (of_int ix * sk)%float k_points;
    if (n / 2 <=? ix)%nat
    then old ← k_points !! ix; vector.store ix (old - of_int n * sk)%float k_points
    else Some k_points) (vector.reserve n).

(** The value the loop leaves at index [i]. *)
Definition wavenumber (n : nat) (sk : double) (i : nat) : double :=
  if (i <? n / 2)%nat then (of_int i * sk)%float
  else (of_int i * sk - of_int n * sk)%float.

(** The wavenumber in the spec's words: "index i maps to frequency i/(N·s)
    for i < N/2, and (i−N)/(N·s) for i >= N/2", with [N/2] the exact half
    (so [i < N/2] is [2 i < N]), [s] the spacing in real space, and the
    negative integer [i - N] converted as minus the double of [N - i]. *)
Definition wavenumber_spec (n : nat) (s : double) (i : nat) : double :=
  if (2 * i <? n)%nat then (of_int i / (of_int n * s))%float
  else (- (of_int (n - i) / (of_int n * s)))%float.

Inductive Axis : Type := AxisX | AxisY | AxisZ.

Definition index_along (a : Axis) (ix iy iz : nat) : nat :=
  match a with AxisX => ix | AxisY => iy | AxisZ => iz end.

Definition set_component (a : Axis) (v : Vec3d) (c : double) : Vec3d :=
  match a with
  | AxisX => Vec3d.mk c (Vec3d.y v) (Vec3d.z v)
  | AxisY => Vec3d.mk (Vec3d.x v) c (Vec3d.z v)
  | AxisZ => Vec3d.mk (Vec3d.x v) (Vec3d.y v) c
  end.

Section Builder.

(** [globals.hpp] *)
Variable PI : double.

(** [DataGrid::at(ix, iy, iz)] addresses [values[toIndex(n_grid, ix, iy, iz)]]
    ([data_grid.hpp], not in [src/]). *)
Variable toIndex : Vec3i -> nat -> nat -> nat -> nat.

(** [fft.hpp], not in [src/]: [fft_data_grid(in, out)] on a fresh [out], and
    [ffti_data_grid(in, out)], which may depend on what [out] held. *)
Variable fft_data_grid : DataGrid double -> DataGrid dcomplex.
Variable ffti_data_grid : DataGrid dcomplex -> DataGrid double -> DataGrid double.

(** [DataGrid<double> temp_rspace;] *)
Variable empty_grid : DataGrid double.

Definition at_ {T} (g : DataGrid T) (ix iy iz : nat) : option T :=
  values g !! toIndex (n_grid g) ix iy iz.

Definition set_at {T} (g : DataGrid T) (ix iy iz : nat) (a : T) : option (DataGrid T) :=
  vs ← write (toIndex (n_grid g) ix iy iz) a (values g); Some (setValues g vs).

(** Source lines 110 to 117:
    [pot_kspace.at(ix, iy, iz) *= volume_unit*rho_kspace.at(ix, iy, iz)]. *)
Definition energy_spectrum (n : Vec3i) (spacing : Vec3d)
    (pot_kspace rho_kspace : DataGrid dcomplex) : option (DataGrid dcomplex) :=
  let volume_unit := (Vec3d.x spacing * Vec3d.y spacing * Vec3d.z spacing)%float in
  for_nodes n (fun ix iy iz pot_kspace =>
    p ← at_ pot_kspace ix iy iz;
    r ← at_ rho_kspace ix iy iz;
    set_at pot_kspace ix iy iz (dcomplex.mul p (dcomplex.scale volume_unit r)))
    pot_kspace.

(** [-2.0*PI*dcomplex(0.0, 1.0)*k*e], the products taken left to right. *)
Definition force_multiplier (k : double) (e : dcomplex) : dcomplex :=
  dcomplex.mul
    (dcomplex.scale k (dcomplex.scale (-2.0 * PI)%float (dcomplex.mk 0 1))) e.

(** The spec's words: the energy spectrum multiplied "by i·2π·k-component". *)
Definition spec_multiplier (k : double) (e : dcomplex) : dcomplex :=
  dcomplex.mul
    (dcomplex.scale k (dcomplex.scale (2.0 * PI)%float (dcomplex.mk 0 1))) e.

(** One of the three loops "Force x/y/z component" (source lines 157 to
    163, 169 to 175, 181 to 187), for the axis [a], writing [mult k e] at
    every node. *)
Definition fill_spectrum (mult : double -> dcomplex -> dcomplex) (a : Axis) (n : Vec3i)
    (k_points : vector.t) (energy_kspace temp_kspace : DataGrid dcomplex)
  : option (DataGrid dcomplex) :=
  for_nodes n (fun ix iy iz temp_kspace =>
    k ← k_points !! index_along a ix iy iz;
    e ← at_ energy_kspace ix iy iz;
    set_at temp_kspace ix iy iz (mult k e)) temp_kspace.

(** [for (ind = 0; ind < count; ind++) force.at(ind).a = temp_rspace.at(ind)] *)
Definition store_component (a : Axis) (count : nat) (temp_rspace : DataGrid double)
    (force : DataGrid Vec3d) : option (DataGrid Vec3d) :=
  for_range 0 count (fun ind force =>
    c ← values temp_rspace !! ind;
    old ← values force !! ind;
    Some (setValues force (<[ind := set_component a old c]> (values force)))) force.

(** Source lines 136 to 190: the wavenumbers of the three axes, then for each
    axis the spectrum, its inverse transform and the copy into the force
    lattice. [mult] is the factor put in front of the energy spectrum. *)
Definition force_fields (mult : double -> dcomplex -> dcomplex) (n : Vec3i)
    (origin : Vec3d) (energy_kspace rho_kspace : DataGrid dcomplex)
    (force : DataGrid Vec3d) : option (DataGrid Vec3d) :=
  let count := (Vec3i.x n * Vec3i.y n * Vec3i.z n)%nat in
  let temp_kspace := rho_kspace in
  let temp_rspace := setOrigin empty_grid origin in
  kx_points ← k_points (Vec3i.x n) (Vec3d.x (spacing energy_kspace));
  ky_points ← k_points (Vec3i.y n) (Vec3d.y (spacing energy_kspace));
  kz_points ← k_points (Vec3i.z n) (Vec3d.z (spacing energy_kspace));
  temp_kspace ← fill_spectrum mult AxisX n kx_points energy_kspace temp_kspace;
  let temp_rspace := ffti_data_grid temp_kspace temp_rspace in
  force ← store_component AxisX count temp_rspace force;
  temp_kspace ← fill_spectrum mult AxisY n ky_points energy_kspace temp_kspace;
  let temp_rspace := ffti_data_grid temp_kspace temp_rspace in
  force ← store_component AxisY count temp_rspace force;
  temp_kspace ← fill_spectrum mult AxisZ n kz_points energy_kspace temp_kspace;
  let temp_rspace := ffti_data_grid temp_kspace temp_rspace in
  force ← store_component AxisZ count temp_rspace force;
  Some force.

(** The constructor from line 102 on. [rho_tip] is the Gaussian charge
    lattice that lines 61 to 87 have filled; the diagnostic print under
    [DEBUG_MODE] changes no data and is left out. *)
Definition build_force_grid (e_potential rho_tip : DataGrid double) : option ForceGrid :=
  let n := n_grid e_potential in
  let spacing := spacing e_potential in
  let origin := origin e_potential in
  let count := (Vec3i.x n * Vec3i.y n * Vec3i.z n)%nat in
  let force := mkDataGrid n spacing origin (replicate count Vec3d.zero) in
  let pot_kspace := fft_data_grid e_potential in
  let rho_kspace := fft_data_grid rho_tip in
  energy_kspace ← energy_spectrum n spacing pot_kspace rho_kspace;
  let energy := ffti_data_grid energy_kspace (setOrigin rho_tip origin) in
  force ← force_fields force_multiplier n origin energy_kspace rho_kspace force;
  Some (mkForceGrid n spacing origin true (values force) (values energy)).

End Builder.

(** [toIndex m] sends distinct nodes of an [n]-lattice to distinct places of
    the value array. *)
Definition addresses_apart (toIndex : Vec3i -> nat -> nat -> nat -> nat) (m n : Vec3i)
  : Prop :=
  forall a b c a' b' c',
    a < Vec3i.x n -> b < Vec3i.y n -> c < Vec3i.z n ->
    a' < Vec3i.x n -> b' < Vec3i.y n -> c' < Vec3i.z n ->
    toIndex m a b c = toIndex m a' b' c' -> a = a' /\ b = b' /\ c = c'.

(** The nodes [(a, b, c)] that the triple loop has passed when it stands at
    [(ix, iy, iz)]. *)
Definition passed (ix iy iz a b c : nat) : Prop :=
  a < ix \/ (a = ix /\ (b < iy \/ (b = iy /\ c < iz))).

(** Loop invariant of a triple loop that writes a lattice [t] (started as
    [g0]) node by node: the addressing is that of [g0] and every node of the
    [n]-lattice that has been [seen] holds a value accepted by [val]. *)
Definition written {T} (toIndex : Vec3i -> nat -> nat -> nat -> nat) (n : Vec3i)
    (val : nat -> nat -> nat -> T -> Prop) (g0 : DataGrid T)
    (seen : nat -> nat -> nat -> Prop) (t : DataGrid T) : Prop :=
  n_grid t = n_grid g0 /\
  forall a b c, a < Vec3i.x n -> b < Vec3i.y n -> c < Vec3i.z n -> seen a b c ->
    exists v, val a b c v /\ at_ toIndex t a b c = Some v.

(** ** Reading the kernel catalogue *)

(** The two participants of a two-body kernel. *)
Definition two_body (k : Interaction) : option (nat * nat) :=
  match k with
  | LJInteraction i1 i2 _ _ | MorseInteraction i1 i2 _ _ _ | CoulombInteraction i1 i2 _
  | TipHarmonicInteraction i1 i2 _ _ | HarmonicInteraction i1 i2 _ _ => Some (i1, i2)
  | _ => None
  end.

(** The pair energy and pair force a two-body kernel computes from the
    positions of its two participants. *)
Definition pair_e_f (exp : double -> double) (pow : double -> double -> double)
    (TOLERANCE : double) (k : Interaction) (p1 p2 : Vec3d) : option (double * Vec3d) :=
  match k with
  | LJInteraction _ _ es12_ es6_ => Some (LJ_e_f es12_ es6_ p1 p2)
  | MorseInteraction _ _ de_ a_ re_ => Some (Morse_e_f exp pow de_ a_ re_ p1 p2)
  | CoulombInteraction _ _ qq_ => Some (Coulomb_e_f qq_ p1 p2)
  | TipHarmonicInteraction _ _ k_ r0_ => Some (TipHarmonic_e_f TOLERANCE k_ r0_ p1 p2)
  | HarmonicInteraction _ _ k_ r0_ => Some (Harmonic_e_f pow k_ r0_ p1 p2)
  | _ => None
  end.

(** The lattice a grid-lookup kernel wraps. *)
Definition grid_lookup (k : Interaction) : option ForceGrid :=
  match k with
  | ElectrostaticPotentialInteraction g | GridInteraction g => Some g
  | _ => None
  end.

(** ** Stand-ins for the closed examples

    The closed examples below run kernels on concrete positions. The
    library functions they are given return NaN on every argument that the
    example does not rely on, so a result free of NaN cannot have come from
    them. *)
Module Sample.
Definition unary (_ : double) : double := nan.
Definition binary (_ _ : double) : double := nan.
(** C's [acos] at its right end point: [acos(1)] is [+0]. *)
Definition acos (u : double) : double := if (u =? 1)%float then 0%float else nan.
(** The binary64 value of the literal [1e-10]. *)
Definition TOLERANCE : double := 0x1.b7cdfd9d7bdbbp-34%float.
(** A lattice read-out that ignores the position and returns the values
    stored at the first node. *)
Definition interpolate (g : ForceGrid) (_ : Vec3d) : Vec3d * double :=
  (default Vec3d.zero (forces_ g !! 0%nat), default 0%float (energies_ g !! 0%nat)).
Definition eval := eval unary binary acos unary unary TOLERANCE interpolate.
Definition origin : Vec3d := Vec3d.zero.
Definition nan3 : Vec3d := Vec3d.mk nan nan nan.

(** Two particles at distance 1 along x, and zeroed accumulators. *)
Definition unit_pair : list Vec3d := [Vec3d.mk 1 0 0; origin].
(** Two particles at the same point. *)
Definition coincident_pair : list Vec3d := [origin; origin].
(** A tip right above its anchor: in-plane distance 0. *)
Definition stacked_pair : list Vec3d := [Vec3d.mk 0 0 1; origin].
Definition forces0 : list Vec3d := [Vec3d.zero; Vec3d.zero].
Definition energies0 : list double := [0%float; 0%float].
(** Two parallel bonds of length [sqrt 3] from the shared particle: the
    rounded product of the two lengths is below the dot product 3. *)
Definition folded_angle : list Vec3d := [Vec3d.mk 1 1 1; Vec3d.mk 1 1 1; origin].
(** A one-node lattice. *)
Definition one_node : ForceGrid :=
  mkForceGrid (Vec3i.mk 1 1 1) (Vec3d.mk 1 1 1) origin true [Vec3d.mk 1 2 3] [5%float].
Definition wall : Interaction := SubstrateInteraction 0 0 2 2 1 0 0.
(** The energy of [wall] at height 1: [0.4 * 1024 - 16], rounded. *)
Definition wall_energy : double := 0x1.899999999999ap+8%float.
End Sample.

(** A lattice of four nodes along x with the textbook four-point discrete
    Fourier transform, whose twiddle factors are the exact units
    [1, -i, -1, i]. The potential is 1 at the second node and 0 elsewhere;
    the tip charge is a unit charge in the cell of the origin. *)
Module Sample4.
(** The binary64 value nearest to pi. *)
Definition PI : double := 0x1.921fb54442d18p+1%float.
Definition toIndex (n : Vec3i) (ix iy iz : nat) : nat :=
  (ix * Vec3i.y n + iy) * Vec3i.z n + iz.
(** Multiplication by [(-i)^m]. *)
Definition turn (m : nat) (c : dcomplex) : dcomplex :=
  match m mod 4 with
  | 0 => c
  | 1 => dcomplex.mk (dcomplex.im c) (- dcomplex.re c)
  | 2 => dcomplex.mk (- dcomplex.re c) (- dcomplex.im c)
  | _ => dcomplex.mk (- dcomplex.im c) (dcomplex.re c)
  end.
Definition cadd (a b : dcomplex) : dcomplex :=
  dcomplex.mk (dcomplex.re a + dcomplex.re b) (dcomplex.im a + dcomplex.im b).
(** The sum over [j] of [(-i)^(s*k*j) * c_j]: the forward transform at
    frequency [k] for [s = 1], the inverse one (not yet divided by 4) for
    [s = 3]. *)
Definition dft4_at (s : nat) (cs : list dcomplex) (k : nat) : dcomplex :=
  foldl cadd (dcomplex.mk 0 0) (imap (fun j c => turn (s * k * j) c) cs).
Definition dft4 (s : nat) (cs : list dcomplex) : list dcomplex :=
  map (dft4_at s cs) (seq 0 4).
(** The spacing of the reciprocal lattice: [1/(N·s)] along each axis. *)
Definition reciprocal (n : Vec3i) (s : Vec3d) : Vec3d :=
  Vec3d.mk (1 / (of_int (Vec3i.x n) * Vec3d.x s))
           (1 / (of_int (Vec3i.y n) * Vec3d.y s))
           (1 / (of_int (Vec3i.z n) * Vec3d.z s)).
Definition fft_data_grid (g : DataGrid double) : DataGrid dcomplex :=
  mkDataGrid (n_grid g) (reciprocal (n_grid g) (spacing g)) (origin g)
    (dft4 1 (map (fun v => dcomplex.mk v 0) (values g))).
Definition ffti_data_grid (g : DataGrid dcomplex) (out : DataGrid double)
  : DataGrid double :=
  mkDataGrid (n_grid g) (reciprocal (n_grid g) (spacing g)) (origin out)
    (map (fun c => (dcomplex.re c / 4)%float) (dft4 3 (values g))).
Definition empty_grid : DataGrid double :=
  mkDataGrid (Vec3i.mk 0 0 0) Vec3d.zero Vec3d.zero [].
Definition lattice : Vec3i := Vec3i.mk 4 1 1.
Definition e_potential : DataGrid double :=
  mkDataGrid lattice (Vec3d.mk 0.25 1 1) Vec3d.zero [0; 1; 0; 0]%float.
Definition rho_tip : DataGrid double :=
  mkDataGrid lattice (Vec3d.mk 0.25 1 1) Vec3d.zero [4; 0; 0; 0]%float.
(** The energy spectrum of the sample: the transform [1, -i, -1, i] of the
    potential, the charge spectrum times the cell volume being 1. *)
Definition energy_kspace : DataGrid dcomplex :=
  mkDataGrid lattice (Vec3d.mk 1 1 1) Vec3d.zero
    [dcomplex.mk 1 0; dcomplex.mk 0 (-1); dcomplex.mk (-1) 0; dcomplex.mk 0 1].
Definition force0 : DataGrid Vec3d :=
  mkDataGrid lattice (Vec3d.mk 0.25 1 1) Vec3d.zero (replicate 4 Vec3d.zero).
(** The lattice the constructor builds from the sample. *)
Definition built : ForceGrid :=
  mkForceGrid lattice (Vec3d.mk 0.25 1 1) Vec3d.zero true
    [Vec3d.mk (- PI) 0 0; Vec3d.zero; Vec3d.mk PI 0 0; Vec3d.zero]
    [0; 1; 0; 0]%float.
Definition build_force_grid :=
  build_force_grid PI toIndex fft_data_grid ffti_data_grid empty_grid.
End Sample4.

(** ** The accumulator updates of a kernel *)

(** ** Kernel calls as lists of accumulator updates *)

(** One statement of an [eval] body that changes an accumulator. *)
Inductive Update : Type :=
| AddForce (i : nat) (f : Vec3d)
| SubForce (i : nat) (f : Vec3d)
| AddForceZ (i : nat) (v : double)
| AddEnergy (i : nat) (e : double).

Definition apply_update (u : Update) (forces : list Vec3d) (energies : list double)
  : option (list Vec3d * list double) :=
  match u with
  | AddForce i f => forces ← force_add i f forces; Some (forces, energies)
  | SubForce i f => forces ← force_sub i f forces; Some (forces, energies)
  | AddForceZ i v => forces ← force_add_z i v forces; Some (forces, energies)
  | AddEnergy i e => energies ← energy_add i e energies; Some (forces, energies)
  end.

Fixpoint apply_updates (us : list Update) (forces : list Vec3d) (energies : list double)
  : option (list Vec3d * list double) :=
  match us with
  | [] => Some (forces, energies)
  | u :: us' =>
      '(forces, energies) ← apply_update u forces energies;
      apply_updates us' forces energies
  end.

(** The entries of the force array, and of the energy array, that a list of
    updates addresses, in order. *)
Fixpoint force_indices (us : list Update) : list nat :=
  match us with
  | [] => []
  | (AddForce i _ | SubForce i _ | AddForceZ i _) :: us' => i :: force_indices us'
  | AddEnergy _ _ :: us' => force_indices us'
  end.

Fixpoint energy_indices (us : list Update) : list nat :=
  match us with
  | [] => []
  | AddEnergy i _ :: us' => i :: energy_indices us'
  | _ :: us' => energy_indices us'
  end.

(** Two index lists without a common element. *)
Definition no_common_index (l1 l2 : list nat) : Prop :=
  forall i, i ∈ l1 -> i ∈ l2 -> False.

(** The particles a kernel acts on: the subscripts its [eval] uses. *)
Definition participants (k : Interaction) : list nat :=
  match k with
  | LJInteraction i1 i2 _ _ | MorseInteraction i1 i2 _ _ _ | CoulombInteraction i1 i2 _
  | TipHarmonicInteraction i1 i2 _ _ | HarmonicInteraction i1 i2 _ _ => [i1; i2]
  | ElectrostaticPotentialInteraction _ | GridInteraction _ => [1]
  | XYHarmonicInteraction i _ _ | SubstrateInteraction i _ _ _ _ _ _ => [i]
  | HarmonicAngleInteraction i1 i2 shared _ _ => [i1; i2; shared]
  | HarmonicDihedralInteraction i1 i2 i3 i4 _ _ => [i1; i2; i3; i4]
  end.

Section Updates.

Variable exp : double -> double.
Variable pow : double -> double -> double.
Variable acos : double -> double.
Variable sin : double -> double.
Variable atan : double -> double.
Variable TOLERANCE : double.
Variable interpolate : ForceGrid -> Vec3d -> Vec3d * double.

(** The accumulator statements of [eval], in source order, with the values
    computed from the positions. *)
Definition updates (k : Interaction) (positions : list Vec3d) : option (list Update) :=
  match k with
  | LJInteraction i1 i2 es12_ es6_ =>
      p1 ← positions !! i1; p2 ← positions !! i2;
      let '(e, f) := LJ_e_f es12_ es6_ p1 p2 in
      Some [AddEnergy i1 e; AddEnergy i2 e; AddForce i1 f; SubForce i2 f]
  | MorseInteraction i1 i2 de_ a_ re_ =>
      p1 ← positions !! i1; p2 ← positions !! i2;
      let '(e, f) := Morse_e_f exp pow de_ a_ re_ p1 p2 in
      Some [AddEnergy i1 e; AddEnergy i2 e; AddForce i1 f; SubForce i2 f]
  | CoulombInteraction i1 i2 qq_ =>
      p1 ← positions !! i1; p2 ← positions !! i2;
      let '(e, f) := Coulomb_e_f qq_ p1 p2 in
      Some [AddEnergy i1 e; AddEnergy i2 e; AddForce i1 f; SubForce i2 f]
  | ElectrostaticPotentialInteraction g | GridInteraction g =>
      p ← positions !! 1%nat;
      let '(tip_force, tip_energy) := interpolate g p in
      Some [AddForce 1 tip_force; AddEnergy 1 tip_energy]
  | TipHarmonicInteraction i1 i2 k_ r0_ =>
      p1 ← positions !! i1; p2 ← positions !! i2;
      let '(e, f) := TipHarmonic_e_f TOLERANCE k_ r0_ p1 p2 in
      Some [AddEnergy i1 e; AddEnergy i2 e; AddForce i1 f; SubForce i2 f]
  | XYHarmonicInteraction i k_ p0_ =>
      p ← positions !! i;
      let '(e, f) := XYHarmonic_e_f TOLERANCE k_ p0_ p in
      Some [AddEnergy i e; AddForce i f]
  | SubstrateInteraction i z0_ sig_ rc_ multiplier_ ulj_ ushift_ =>
      p ← positions !! i;
      let '(eterm, fterm) := Substrate_terms z0_ sig_ rc_ multiplier_ ulj_ ushift_ p in
      Some [AddForceZ i fterm; AddEnergy i eterm]
  | HarmonicInteraction i1 i2 k_ r0_ =>
      p1 ← positions !! i1; p2 ← positions !! i2;
      let '(e, f) := Harmonic_e_f pow k_ r0_ p1 p2 in
      Some [AddEnergy i1 e; AddEnergy i2 e; AddForce i1 f; SubForce i2 f]
  | HarmonicAngleInteraction i1 i2 shared k_ theta0_ =>
      p1 ← positions !! i1; ps ← positions !! shared; p2 ← positions !! i2;
      let '(e, f1, f2) := HarmonicAngle_e_f pow acos sin k_ theta0_ p1 p2 ps in
      Some [AddForce i1 f1; AddForce i2 f2; SubForce shared (Vec3d.add f1 f2);
            AddEnergy i1 e; AddEnergy i2 e; AddEnergy shared e]
  | HarmonicDihedralInteraction i1 i2 i3 i4 k_ sigma0_ =>
      p1 ← positions !! i1; p2 ← positions !! i2;
      p3 ← positions !! i3; p4 ← positions !! i4;
      let '(e, f1, f2, f3, f4) := HarmonicDihedral_e_f pow atan k_ sigma0_ p1 p2 p3 p4 in
      Some [AddForce i1 f1; AddForce i2 f2; AddForce i3 f3; AddForce i4 f4;
            AddEnergy i1 e; AddEnergy i2 e; AddEnergy i3 e; AddEnergy i4 e]
  end.

End Updates.

(** ** Finite numbers and the unguarded pair kernels *)

(** Neither NaN nor infinite. *)
Definition finite (a : double) : bool :=
  match Prim2SF a with
  | S754_zero _ | S754_finite _ _ _ => true
  | _ => false
  end.

Definition finite3 (p : Vec3d) : bool :=
  finite (Vec3d.x p) && finite (Vec3d.y p) && finite (Vec3d.z p).

(** The pair kernels whose force is a quotient by the separation with no
    test on it. *)
Definition unguarded_pair (k : Interaction) : option (nat * nat) :=
  match k with
  | LJInteraction i1 i2 _ _ | MorseInteraction i1 i2 _ _ _ | CoulombInteraction i1 i2 _
  | HarmonicInteraction i1 i2 _ _ => Some (i1, i2)
  | _ => None
  end.

(** The vector whose three components are NaN. *)
Definition Vec3d_nan : Vec3d := Vec3d.mk nan nan nan.

(** ** Loops of the lattice builder: replacing values, the Gaussian cutoff *)

(** Loop invariant of a triple loop that replaces the value at each node by
    one computed from the value it finds there: a lattice [t], started as
    [g0], keeps the shape, spacing and origin of [g0]; a node that has been
    [seen] holds a value related by [val] to the one [g0] had there; any
    other node holds what [g0] holds. *)
Definition updated {T} (toIndex : Vec3i -> nat -> nat -> nat -> nat) (n : Vec3i)
    (val : nat -> nat -> nat -> T -> T -> Prop) (g0 : DataGrid T)
    (seen : nat -> nat -> nat -> Prop) (t : DataGrid T) : Prop :=
  n_grid t = n_grid g0 /\ spacing t = spacing g0 /\ origin t = origin g0 /\
  length (values t) = length (values g0) /\
  forall a b c, a < Vec3i.x n -> b < Vec3i.y n -> c < Vec3i.z n ->
    (seen a b c ->
       exists old new, at_ toIndex g0 a b c = Some old /\ val a b c old new /\
                       at_ toIndex t a b c = Some new) /\
    (~ seen a b c -> at_ toIndex t a b c = at_ toIndex g0 a b c).

(** [1.0e-10], the nearest binary64 number. *)
Definition gaussian_threshold : double := 0x1.b7cdfd9d7bdbbp-34%float.

(** [for (ix = first; ix < first + count; ix++) if (test ix) { result = ix;
    break; }] on a [result] preset to [preset]. *)
Fixpoint first_hit (test : nat -> bool) (first count preset : nat) : nat :=
  match count with
  | O => preset
  | Datatypes.S count' =>
      if test first then first else first_hit test (Datatypes.S first) count' preset
  end.

Section Cutoff.

Variable exp : double -> double.
Variable pow : double -> double -> double.

(** [exp(-0.5*x_sqr/gaussian_width_sqr) < 1.0e-10] at [x = ix*spacing.x]. *)
Definition gaussian_negligible (spacing_x gaussian_width_sqr : double) (ix : nat) : bool :=
  let x_sqr := pow (of_int ix * spacing_x)%float 2 in
  (exp (-0.5 * x_sqr / gaussian_width_sqr) <? gaussian_threshold)%float.

(** Source lines 66 to 77: the cutoff distance of the Gaussian, in nodes. *)
Definition cutoff_dist (n_grid : Vec3i) (spacing : Vec3d) (gaussian_width : double) : nat :=
  let gaussian_width_sqr := pow gaussian_width 2 in
  let n_min := Nat.min (Nat.min (Vec3i.x n_grid) (Vec3i.y n_grid)) (Vec3i.z n_grid) in
  first_hit (gaussian_negligible (Vec3d.x spacing) gaussian_width_sqr) 0 (n_min - 1) n_min.

End Cutoff.

(** ** The Gaussian charge lattice *)

(** The nodes of the box that the Gaussian loops walk through. *)
Definition in_gaussian_box (cutoff_dist : nat) (ix iy iz : Z) : Prop :=
  (- Z.of_nat cutoff_dist <= ix <= Z.of_nat cutoff_dist)%Z /\
  (- Z.of_nat cutoff_dist <= iy <= Z.of_nat cutoff_dist)%Z /\
  (- Z.of_nat cutoff_dist <= iz < Z.of_nat cutoff_dist)%Z.

(** [for (int i = first; i < first + count; i++) body] with a signed
    counter. *)
Definition for_rangeZ {S : Type} (first : Z) (count : nat) (body : Z -> S -> option S)
    (s : S) : option S :=
  for_range 0 count (fun k s => body (first + Z.of_nat k)%Z s) s.

Section Gaussian.

Variable exp : double -> double.
Variable pow : double -> double -> double.
Variable PI : double.

(** [DataGrid::atPBC(ix, iy, iz)] addresses
    [values[toIndexPBC(n_grid, ix, iy, iz)]], and [DataGrid::positionAt]
    computes a position from the shape, spacing and origin of the lattice
    ([data_grid.hpp], not in [src/]). *)
Variable toIndexPBC : Vec3i -> Z -> Z -> Z -> nat.
Variable positionAt : Vec3i -> Vec3d -> Vec3d -> Z -> Z -> Z -> Vec3d.

Definition set_atPBC {T} (g : DataGrid T) (ix iy iz : Z) (a : T) : option (DataGrid T) :=
  vs ← write (toIndexPBC (n_grid g) ix iy iz) a (values g); Some (setValues g vs).

(** [tip_charge * gaussian_norm_factor * exp(-0.5*r_sqr/gaussian_width_sqr)]
    (source lines 66, 67, 83 and 84). *)
Definition gaussian_charge (tip_charge gaussian_width : double) (position : Vec3d) : double :=
  let gaussian_width_sqr := pow gaussian_width 2 in
  let gaussian_norm_factor := (1.0 / pow (gaussian_width * PrimFloat.sqrt (2.0 * PI)) 3)%float in
  let r_sqr := Vec3d.lensqr position in
  (tip_charge * gaussian_norm_factor * exp (-0.5 * r_sqr / gaussian_width_sqr))%float.

(** Source lines 79 to 87: [ix] and [iy] run from [-cutoff_dist] to
    [cutoff_dist] inclusive, [iz] from [-cutoff_dist] to [cutoff_dist - 1]. *)
Definition fill_gaussian (tip_charge gaussian_width : double) (cutoff_dist : nat)
    (rho_tip : DataGrid double) : option (DataGrid double) :=
  let c := Z.of_nat cutoff_dist in
  for_rangeZ (- c) (2 * cutoff_dist + 1) (fun ix rho_tip =>
    for_rangeZ (- c) (2 * cutoff_dist + 1) (fun iy rho_tip =>
      for_rangeZ (- c) (2 * cutoff_dist) (fun iz rho_tip =>
        let position :=
          positionAt (n_grid rho_tip) (spacing rho_tip) (origin rho_tip) ix iy iz in
        set_atPBC rho_tip ix iy iz (gaussian_charge tip_charge gaussian_width position))
        rho_tip) rho_tip) rho_tip.

End Gaussian.

(** ** More samples *)

(** Particles for the kernels on three and four participants, and a
    bystander. *)
Module SampleMany.
(** A right angle at the origin, and a fourth particle off its plane. *)
Definition positions : list Vec3d :=
  [Vec3d.mk 1 0 0; Vec3d.mk 0 1 0; Sample.origin; Vec3d.mk 0 0 1].
Definition forces : list Vec3d :=
  [Vec3d.mk 1 1 1; Vec3d.mk 2 2 2; Vec3d.mk 3 3 3; Vec3d.mk 7 8 9].
Definition energies : list double := [1; 2; 3; 4]%float.
(** The wall of [Sample.wall], acting on the fourth particle. *)
Definition wall3 : Interaction := SubstrateInteraction 3 0 2 2 1 0 0.
(** The energy of the fourth particle after [wall3]. *)
Definition wall3_energy : double := Eval vm_compute in (4 + Sample.wall_energy)%float.
End SampleMany.

(** A lattice of [3 x 3 x 3] nodes with row-major periodic addressing, node
    positions [origin + index * spacing], and a Gaussian cutoff of one
    node. *)
Module SampleBox.
Definition wrap (i : Z) (n : nat) : nat := Z.to_nat (i mod Z.of_nat n).
Definition toIndexPBC (n : Vec3i) (ix iy iz : Z) : nat :=
  Sample4.toIndex n (wrap ix (Vec3i.x n)) (wrap iy (Vec3i.y n)) (wrap iz (Vec3i.z n)).
Definition of_Z (i : Z) : double :=
  if (i <? 0)%Z then (- of_int (Z.to_nat (- i)))%float else of_int (Z.to_nat i).
Definition positionAt (n : Vec3i) (sp o : Vec3d) (ix iy iz : Z) : Vec3d :=
  Vec3d.add o (Vec3d.mk (of_Z ix * Vec3d.x sp) (of_Z iy * Vec3d.y sp) (of_Z iz * Vec3d.z sp)).
Definition lattice : Vec3i := Vec3i.mk 3 3 3.
Definition rho0 : DataGrid double :=
  mkDataGrid lattice (Vec3d.mk 1 1 1) Vec3d.zero (replicate 27 0%float).
(** With [Sample.unary] for [exp] every charge the loops write is NaN: the
    planes [iz = -1] and [iz = 0] (places 2 and 0 of each row along z) are
    written, the plane [iz = 1] is not. *)
Definition filled : DataGrid double :=
  mkDataGrid lattice (Vec3d.mk 1 1 1) Vec3d.zero
    (concat (replicate 9 [nan; 0%float; nan])).
Definition fill_gaussian :=
  fill_gaussian Sample.unary Sample.binary Sample4.PI toIndexPBC positionAt.
End SampleBox.

(** ** Binary64 facts *)

Section Binary64.

Lemma SFcompare_antisym u v c :
  SFcompare u v = Some c -> SFcompare v u = Some (CompOpp c).
Proof.
  destruct u as [su|su| |su mu eu], v as [sv|sv| |sv mv ev]; simpl;
    try discriminate; intros [= <-];
    repeat match goal with s : bool |- _ => destruct s end; simpl; try reflexivity.
  - rewrite (Z.compare_antisym ev eu).
    destruct (ev ?= eu)%Z; simpl; try reflexivity.
    rewrite (Pos.compare_cont_antisym mu mv Eq). simpl.
    now destruct (Pos.compare_cont Eq mu mv).
  - rewrite (Z.compare_antisym ev eu).
    destruct (ev ?= eu)%Z; simpl; try reflexivity.
    rewrite (Pos.compare_cont_antisym mu mv Eq). simpl.
    now destruct (Pos.compare_cont Eq mu mv).
Qed.

(** [a < b] excludes [b < a]. *)
Lemma ltb_asym (a b : double) : (a <? b)%float = true -> (b <? a)%float = false.
Proof.
  rewrite !ltb_spec. unfold SFltb.
  destruct (SFcompare (Prim2SF a) (Prim2SF b)) as [c|] eqn:Hc; [|discriminate].
  rewrite (SFcompare_antisym _ _ _ Hc). destruct c; simpl; congruence.
Qed.

(** [a < b] excludes [b <= a]. *)
Lemma ltb_not_leb (a b : double) : (a <? b)%float = true -> (b <=? a)%float = false.
Proof.
  rewrite ltb_spec, leb_spec. unfold SFltb, SFleb.
  destruct (SFcompare (Prim2SF a) (Prim2SF b)) as [c|] eqn:Hc; [|discriminate].
  rewrite (SFcompare_antisym _ _ _ Hc). destruct c; simpl; congruence.
Qed.

Lemma SFsub_add_opp prec emax u v : SFsub prec emax u v = SFadd prec emax u (SFopp v).
Proof.
  destruct u as [su|su| |su mu eu], v as [sv|sv| |sv mv ev]; simpl; try reflexivity;
    try (destruct su, sv; reflexivity).
Qed.

(** Subtracting is adding the negation, to the last bit. *)
Lemma sub_add_opp (a b : double) : (a - b)%float = (a + - b)%float.
Proof.
  apply Prim2SF_inj. rewrite sub_spec, add_spec, opp_spec. apply SFsub_add_opp.
Qed.

Lemma Vec3d_sub_add_opp (a b : Vec3d) : Vec3d.sub a b = Vec3d.add a (Vec3d.opp b).
Proof. unfold Vec3d.sub, Vec3d.add, Vec3d.opp. simpl. now rewrite !sub_add_opp. Qed.

End Binary64.

(** ** Accumulator lemmas *)

Section Accumulators.

Lemma force_add_Some i f (forces forces' : list Vec3d) :
  force_add i f forces = Some forces' ->
  exists old, forces !! i = Some old /\ forces' = <[i := Vec3d.add old f]> forces.
Proof.
  unfold force_add. destruct (forces !! i) as [old|] eqn:Hi; simpl; [|discriminate].
  intros [= <-]. eauto.
Qed.

Lemma force_sub_Some i f (forces forces' : list Vec3d) :
  force_sub i f forces = Some forces' ->
  exists old, forces !! i = Some old /\ forces' = <[i := Vec3d.sub old f]> forces.
Proof.
  unfold force_sub. destruct (forces !! i) as [old|] eqn:Hi; simpl; [|discriminate].
  intros [= <-]. eauto.
Qed.

Lemma force_add_z_Some i v (forces forces' : list Vec3d) :
  force_add_z i v forces = Some forces' ->
  exists old, forces !! i = Some old /\
    forces' = <[i := Vec3d.set_z old (Vec3d.z old + v)]> forces.
Proof.
  unfold force_add_z. destruct (forces !! i) as [old|] eqn:Hi; simpl; [|discriminate].
  intros [= <-]. eauto.
Qed.

Lemma energy_add_Some i e (energies energies' : list double) :
  energy_add i e energies = Some energies' ->
  exists old, energies !! i = Some old /\ energies' = <[i := (old + e)%float]> energies.
Proof.
  unfold energy_add. destruct (energies !! i) as [old|] eqn:Hi; simpl; [|discriminate].
  intros [= <-]. eauto.
Qed.

Lemma force_add_in_range i f (forces : list Vec3d) :
  i < length forces -> is_Some (force_add i f forces).
Proof.
  intros Hi. apply lookup_lt_is_Some_2 in Hi as [old Hold].
  unfold force_add. rewrite Hold. simpl. eauto.
Qed.

Lemma force_sub_in_range i f (forces : list Vec3d) :
  i < length forces -> is_Some (force_sub i f forces).
Proof.
  intros Hi. apply lookup_lt_is_Some_2 in Hi as [old Hold].
  unfold force_sub. rewrite Hold. simpl. eauto.
Qed.

Lemma force_add_z_in_range i v (forces : list Vec3d) :
  i < length forces -> is_Some (force_add_z i v forces).
Proof.
  intros Hi. apply lookup_lt_is_Some_2 in Hi as [old Hold].
  unfold force_add_z. rewrite Hold. simpl. eauto.
Qed.

Lemma energy_add_in_range i e (energies : list double) :
  i < length energies -> is_Some (energy_add i e energies).
Proof.
  intros Hi. apply lookup_lt_is_Some_2 in Hi as [old Hold].
  unfold energy_add. rewrite Hold. simpl. eauto.
Qed.

Lemma force_add_length i f (forces forces' : list Vec3d) :
  force_add i f forces = Some forces' -> length forces' = length forces.
Proof. intros (old & _ & ->)%force_add_Some. apply length_insert. Qed.

Lemma force_sub_length i f (forces forces' : list Vec3d) :
  force_sub i f forces = Some forces' -> length forces' = length forces.
Proof. intros (old & _ & ->)%force_sub_Some. apply length_insert. Qed.

Lemma force_add_z_length i v (forces forces' : list Vec3d) :
  force_add_z i v forces = Some forces' -> length forces' = length forces.
Proof. intros (old & _ & ->)%force_add_z_Some. apply length_insert. Qed.

Lemma energy_add_length i e (energies energies' : list double) :
  energy_add i e energies = Some energies' -> length energies' = length energies.
Proof. intros (old & _ & ->)%energy_add_Some. apply length_insert. Qed.

End Accumulators.

(** Takes a successful run of accumulator updates apart, one update at a
    time, leaving each intermediate array as an [insert] into its
    predecessor. *)
Ltac split_updates :=
  repeat match goal with
  | H : (?m ≫= _) = Some _ |- _ =>
      let E := fresh "Hstep" in
      destruct m eqn:E; simpl in H; [|discriminate H]
  | H : Some _ = Some _ |- _ => injection H as H; subst
  | H : (let '(_, _) := ?t in _) = Some _ |- _ =>
      let E := fresh "Hterms" in destruct t eqn:E
  | H : force_add _ _ _ = Some _ |- _ =>
      let o := fresh "old" in
      apply force_add_Some in H as (o & ? & ->)
  | H : force_sub _ _ _ = Some _ |- _ =>
      let o := fresh "old" in
      apply force_sub_Some in H as (o & ? & ->)
  | H : force_add_z _ _ _ = Some _ |- _ =>
      let o := fresh "old" in
      apply force_add_z_Some in H as (o & ? & ->)
  | H : energy_add _ _ _ = Some _ |- _ =>
      let o := fresh "old" in
      apply energy_add_Some in H as (o & ? & ->)
  end.

Section KernelProperties.

Variable exp : double -> double.
Variable pow : double -> double -> double.
Variable acos : double -> double.
Variable sin : double -> double.
Variable atan : double -> double.
Variable TOLERANCE : double.
Variable interpolate : ForceGrid -> Vec3d -> Vec3d * double.

Local Abbreviation eval := (eval exp pow acos sin atan TOLERANCE interpolate).
Local Abbreviation pair_e_f := (pair_e_f exp pow TOLERANCE).

(** What a successful call of a two-body kernel did. *)
Lemma two_body_eval k i1 i2 positions forces energies forces' energies' :
  two_body k = Some (i1, i2) ->
  eval k positions forces energies = Some (forces', energies') ->
  exists p1 p2 e f e1 e2 f1 f2,
    positions !! i1 = Some p1 /\ positions !! i2 = Some p2 /\
    pair_e_f k p1 p2 = Some (e, f) /\
    energies !! i1 = Some e1 /\
    <[i1 := (e1 + e)%float]> energies !! i2 = Some e2 /\
    energies' = <[i2 := (e2 + e)%float]> (<[i1 := (e1 + e)%float]> energies) /\
    forces !! i1 = Some f1 /\
    <[i1 := Vec3d.add f1 f]> forces !! i2 = Some f2 /\
    forces' = <[i2 := Vec3d.sub f2 f]> (<[i1 := Vec3d.add f1 f]> forces).
Proof.
  intros Hk Hev.
  destruct k; simpl in Hk; try discriminate; injection Hk as -> ->;
    simpl in Hev; split_updates; simpl; repeat esplit; eauto.
Qed.

(** A successful call of a two-body kernel on distinct participants, entry
    by entry. *)
Lemma two_body_eval_distinct
    k i1 i2 positions forces energies forces' energies' :
  two_body k = Some (i1, i2) ->
  i1 <> i2 ->
  eval k positions forces energies = Some (forces', energies') ->
  exists p1 p2 e f e1 e2 f1 f2,
    positions !! i1 = Some p1 /\ positions !! i2 = Some p2 /\
    pair_e_f k p1 p2 = Some (e, f) /\
    energies !! i1 = Some e1 /\ energies !! i2 = Some e2 /\
    energies' !! i1 = Some (e1 + e)%float /\
    energies' !! i2 = Some (e2 + e)%float /\
    forces !! i1 = Some f1 /\ forces !! i2 = Some f2 /\
    forces' !! i1 = Some (Vec3d.add f1 f) /\
    forces' !! i2 = Some (Vec3d.sub f2 f).
Proof.
  intros Hk Hne Hev.
  destruct (two_body_eval _ _ _ _ _ _ _ _ Hk Hev)
    as (p1 & p2 & e & f & e1 & e2 & f1 & f2
        & Hp1 & Hp2 & Hef & He1 & He2 & -> & Hf1 & Hf2 & ->).
  rewrite list_lookup_insert_ne in He2 by done.
  rewrite list_lookup_insert_ne in Hf2 by done.
  assert (i1 < length energies) by by eapply lookup_lt_Some.
  assert (i2 < length energies) by by eapply lookup_lt_Some.
  assert (i1 < length forces) by by eapply lookup_lt_Some.
  assert (i2 < length forces) by by eapply lookup_lt_Some.
  exists p1, p2, e, f, e1, e2, f1, f2.
  rewrite !(list_lookup_insert_ne _ i2 i1) by done.
  rewrite !list_lookup_insert_eq by by rewrite ?length_insert.
  done.
Qed.

(** C4. For each of the five two-body kernels with distinct participants,
    a successful call adds one and the same vector [f] (the kernel's pair
    force at the two positions) to the first participant's force and
    subtracts it from the second's: the second contribution is the exact
    negation [Vec3d.opp f] of the first. *)
Theorem two_body_forces_antisymmetric
    k i1 i2 positions forces energies forces' energies' :
  two_body k = Some (i1, i2) ->
  i1 <> i2 ->
  eval k positions forces energies = Some (forces', energies') ->
  exists p1 p2 e f old1 old2,
    positions !! i1 = Some p1 /\ positions !! i2 = Some p2 /\
    pair_e_f k p1 p2 = Some (e, f) /\
    forces !! i1 = Some old1 /\ forces !! i2 = Some old2 /\
    forces' !! i1 = Some (Vec3d.add old1 f) /\
    forces' !! i2 = Some (Vec3d.sub old2 f) /\
    Vec3d.sub old2 f = Vec3d.add old2 (Vec3d.opp f).
Proof.
  intros Hk Hne Hev.
  destruct (two_body_eval _ _ _ _ _ _ _ _ Hk Hev)
    as (p1 & p2 & e & f & e1 & e2 & f1 & f2 & Hp1 & Hp2 & Hef & _ & _ & _ & Hf1 & Hf2 & ->).
  rewrite list_lookup_insert_ne in Hf2 by done.
  exists p1, p2, e, f, f1, f2. repeat split; try done.
  - rewrite list_lookup_insert_ne by done.
    apply list_lookup_insert_eq. by eapply lookup_lt_Some.
  - apply list_lookup_insert_eq. rewrite length_insert. by eapply lookup_lt_Some.
  - apply Vec3d_sub_add_opp.
Qed.

(** C6. For each of the five two-body kernels with distinct participants,
    a successful call adds the full pair energy [e] to the energy entry of
    the first participant and the same [e] to the entry of the second. *)
Theorem two_body_energy_added_to_both
    k i1 i2 positions forces energies forces' energies' :
  two_body k = Some (i1, i2) ->
  i1 <> i2 ->
  eval k positions forces energies = Some (forces', energies') ->
  exists p1 p2 e f old1 old2,
    positions !! i1 = Some p1 /\ positions !! i2 = Some p2 /\
    pair_e_f k p1 p2 = Some (e, f) /\
    energies !! i1 = Some old1 /\ energies !! i2 = Some old2 /\
    energies' !! i1 = Some (old1 + e)%float /\
    energies' !! i2 = Some (old2 + e)%float.
Proof.
  intros Hk Hne Hev.
  destruct (two_body_eval _ _ _ _ _ _ _ _ Hk Hev)
    as (p1 & p2 & e & f & e1 & e2 & f1 & f2 & Hp1 & Hp2 & Hef & He1 & He2 & -> & _).
  rewrite list_lookup_insert_ne in He2 by done.
  exists p1, p2, e, f, e1, e2. repeat split; try done.
  - rewrite list_lookup_insert_ne by done.
    apply list_lookup_insert_eq. by eapply lookup_lt_Some.
  - apply list_lookup_insert_eq. rewrite length_insert. by eapply lookup_lt_Some.
Qed.

(** C10. Both grid-lookup kernels read [positions[1]] and nothing else of
    the position array, add the interpolated force to [forces[1]] and the
    interpolated energy to [energies[1]], whatever lattice they were built
    with, and leave every other accumulator entry as it was. *)
Theorem grid_kernels_act_on_index_1
    k g positions forces energies forces' energies' :
  grid_lookup k = Some g ->
  eval k positions forces energies = Some (forces', energies') ->
  exists p f1 e1,
    positions !! 1%nat = Some p /\
    forces !! 1%nat = Some f1 /\ energies !! 1%nat = Some e1 /\
    forces' = <[1%nat := Vec3d.add f1 (interpolate g p).1]> forces /\
    energies' = <[1%nat := (e1 + (interpolate g p).2)%float]> energies /\
    (forall j, j <> 1%nat ->
       forces' !! j = forces !! j /\ energies' !! j = energies !! j) /\
    (forall positions2, positions2 !! 1%nat = Some p ->
       eval k positions2 forces energies = Some (forces', energies')).
Proof.
  intros Hk Hev.
  destruct k; simpl in Hk; try discriminate; injection Hk as ->;
    simpl in Hev;
    (destruct (positions !! 1%nat) as [p|] eqn:Hp; simpl in Hev; [|discriminate]);
    (destruct (interpolate g p) as [tip_force tip_energy] eqn:Hint);
    split_updates.
  all: exists p; do 2 eexists; rewrite Hint; simpl.
  all: split; [reflexivity|]; split; [eassumption|]; split; [eassumption|].
  all: split; [reflexivity|]; split; [reflexivity|]; split.
  all: try (intros j Hj; split; by rewrite list_lookup_insert_ne).
  all: intros positions2 Hp2; simpl; rewrite Hp2; simpl; rewrite Hint.
  all: unfold force_add, energy_add.
  all: repeat match goal with H : _ !! _ = Some _ |- _ => rewrite H; clear H end.
  all: reflexivity.
Qed.

(** C7. A successful call of the substrate wall kernel on particle [i]:
    beyond the cutoff ([rc_ < dz]) it adds [0] to [forces[i].z] and [0] to
    [energies[i]]; at or below the cutoff ([dz <= rc_]) it adds the wall
    terms of [Substrate_inner] (each first summed into a zero-initialised
    local); in both cases the x and y components of [forces[i]] and every
    entry of another particle are unchanged. *)
Theorem substrate_wall_cutoff_and_frame
    i z0_ sig_ rc_ multiplier_ ulj_ ushift_
    positions forces energies forces' energies' :
  eval (SubstrateInteraction i z0_ sig_ rc_ multiplier_ ulj_ ushift_)
    positions forces energies = Some (forces', energies') ->
  exists p fold eold fnew,
    positions !! i = Some p /\ forces !! i = Some fold /\ energies !! i = Some eold /\
    forces' !! i = Some fnew /\
    ((rc_ <? Substrate_dz z0_ p)%float = true ->
       Vec3d.z fnew = (Vec3d.z fold + 0)%float /\
       energies' !! i = Some (eold + 0)%float) /\
    ((Substrate_dz z0_ p <=? rc_)%float = true ->
       Vec3d.z fnew =
         (Vec3d.z fold +
          (0 + (Substrate_inner sig_ multiplier_ ulj_ ushift_ (Substrate_dz z0_ p)).2))%float /\
       energies' !! i =
         Some (eold +
               (0 + (Substrate_inner sig_ multiplier_ ulj_ ushift_ (Substrate_dz z0_ p)).1))%float) /\
    Vec3d.x fnew = Vec3d.x fold /\ Vec3d.y fnew = Vec3d.y fold /\
    (forall j, j <> i ->
       forces' !! j = forces !! j /\ energies' !! j = energies !! j).
Proof.
  intros Hev. simpl in Hev.
  destruct (positions !! i) as [p|] eqn:Hp; simpl in Hev; [|discriminate].
  destruct (Substrate_terms z0_ sig_ rc_ multiplier_ ulj_ ushift_ p)
    as [eterm fterm] eqn:Hterms.
  split_updates.
  match goal with
  | Hf : forces !! i = Some ?fo, He : energies !! i = Some ?eo |- _ =>
      exists p, fo, eo, (Vec3d.set_z fo (Vec3d.z fo + fterm))
  end.
  assert (Hfi : i < length forces) by by eapply lookup_lt_Some.
  assert (Hei : i < length energies) by by eapply lookup_lt_Some.
  rewrite !list_lookup_insert_eq by done.
  unfold Substrate_terms in Hterms.
  split; [done|]. split; [done|]. split; [done|]. split; [done|].
  split; [|split]; [| |split; [done|]; split; [done|]].
  - intros Hbeyond. apply ltb_not_leb in Hbeyond. rewrite Hbeyond in Hterms.
    by injection Hterms as <- <-.
  - intros Hwithin. rewrite Hwithin in Hterms.
    destruct (Substrate_inner sig_ multiplier_ ulj_ ushift_ (Substrate_dz z0_ p)).
    by injection Hterms as <- <-.
  - intros j Hj. by rewrite !list_lookup_insert_ne.
Qed.

(** What a call of the planar tip restraint computes for the force when its
    in-plane length is not above the tolerance. *)
Lemma TipHarmonic_guard k_ r0_ p1 p2 :
  (TOLERANCE <? TipHarmonic_r p1 p2)%float = false ->
  (TipHarmonic_e_f TOLERANCE k_ r0_ p1 p2).2 = Vec3d.zero.
Proof. unfold TipHarmonic_e_f, TipHarmonic_r. cbn. by intros ->. Qed.

Lemma XYHarmonic_guard k_ p0_ p :
  (TOLERANCE <? XYHarmonic_r p0_ p)%float = false ->
  (XYHarmonic_e_f TOLERANCE k_ p0_ p).2 = Vec3d.zero.
Proof. unfold XYHarmonic_e_f, XYHarmonic_r. cbn. by intros ->. Qed.

(** C1, as the code has it. The two restraint kernels carry the guard
    [r > TOLERANCE]: when the in-plane length [r] of the planar tip
    restraint, or of the in-plane restraint, is below [TOLERANCE], the
    force of the call is the zero vector: the tip restraint adds it to
    [forces[atom_i1_]] and subtracts it from [forces[atom_i2_]], the
    in-plane restraint adds it to [forces[atom_i_]]. *)
Theorem restraints_zero_force_below_tolerance :
  (forall i1 i2 k_ r0_ positions p1 p2 forces energies forces' energies',
      positions !! i1 = Some p1 -> positions !! i2 = Some p2 ->
      (TipHarmonic_r p1 p2 <? TOLERANCE)%float = true ->
      eval (TipHarmonicInteraction i1 i2 k_ r0_) positions forces energies
        = Some (forces', energies') ->
      exists f1 f2,
        forces !! i1 = Some f1 /\
        <[i1 := Vec3d.add f1 Vec3d.zero]> forces !! i2 = Some f2 /\
        forces' =
          <[i2 := Vec3d.sub f2 Vec3d.zero]> (<[i1 := Vec3d.add f1 Vec3d.zero]> forces))
  /\
  (forall i k_ p0_ positions p forces energies forces' energies',
      positions !! i = Some p ->
      (XYHarmonic_r p0_ p <? TOLERANCE)%float = true ->
      eval (XYHarmonicInteraction i k_ p0_) positions forces energies
        = Some (forces', energies') ->
      exists f1,
        forces !! i = Some f1 /\
        forces' = <[i := Vec3d.add f1 Vec3d.zero]> forces).
Proof.
  split.
  - intros i1 i2 k_ r0_ positions p1 p2 forces energies forces' energies'
      Hp1 Hp2 Hbelow Hev.
    apply ltb_asym in Hbelow.
    pose proof (TipHarmonic_guard k_ r0_ p1 p2 Hbelow) as Hzero.
    cbn in Hev. rewrite Hp1, Hp2 in Hev. cbn in Hev.
    destruct (TipHarmonic_e_f TOLERANCE k_ r0_ p1 p2) as [e f].
    simpl in Hzero. subst f. split_updates. eauto.
  - intros i k_ p0_ positions p forces energies forces' energies' Hp Hbelow Hev.
    apply ltb_asym in Hbelow.
    pose proof (XYHarmonic_guard k_ p0_ p Hbelow) as Hzero.
    cbn in Hev. rewrite Hp in Hev. cbn in Hev.
    destruct (XYHarmonic_e_f TOLERANCE k_ p0_ p) as [e f].
    simpl in Hzero. subst f. split_updates. eauto.
Qed.

(** [cos_t > 1] takes the first branch of the clamp. *)
Lemma clamp_cos_above (c : double) : (1 <? c)%float = true -> clamp_cos c = 1%float.
Proof. unfold clamp_cos. by intros ->. Qed.

(** C5. With C's [acos(1) = +0]: whenever the cosine ratio of the harmonic
    angle kernel comes out above 1, the argument handed to [acos] is
    exactly 1, the angle is 0, the energy of the call is
    [k_ * pow (0 - theta0_) 2], and the call returns for every force and
    energy array that holds the three participants. *)
Theorem harmonic_angle_clamps_cosine_above_one
    i1 i2 shared k_ theta0_ positions p1 p2 ps :
  acos 1%float = 0%float ->
  positions !! i1 = Some p1 -> positions !! i2 = Some p2 ->
  positions !! shared = Some ps ->
  (1 <? HarmonicAngle_cos_ratio p1 p2 ps)%float = true ->
  clamp_cos (HarmonicAngle_cos_ratio p1 p2 ps) = 1%float /\
  HarmonicAngle_theta acos p1 p2 ps = 0%float /\
  (HarmonicAngle_e_f pow acos sin k_ theta0_ p1 p2 ps).1.1
    = (k_ * pow (0 - theta0_) 2)%float /\
  (forall forces energies,
      i1 < length forces -> i2 < length forces -> shared < length forces ->
      i1 < length energies -> i2 < length energies -> shared < length energies ->
      is_Some (eval (HarmonicAngleInteraction i1 i2 shared k_ theta0_)
                 positions forces energies)).
Proof.
  intros Hacos Hp1 Hp2 Hps Habove.
  pose proof (clamp_cos_above _ Habove) as Hclamp.
  assert (Htheta : HarmonicAngle_theta acos p1 p2 ps = 0%float).
  { unfold HarmonicAngle_theta. by rewrite Hclamp. }
  split; [done|]. split; [done|]. split.
  - unfold HarmonicAngle_e_f. simpl. by rewrite Htheta.
  - intros forces energies Hf1 Hf2 Hfs He1 He2 Hes.
    cbn. rewrite Hp1, Hps, Hp2. cbn.
    destruct (HarmonicAngle_e_f pow acos sin k_ theta0_ p1 p2 ps) as [[e f1] f2].
    destruct (force_add_in_range i1 f1 forces Hf1) as [F1 HF1].
    rewrite HF1. cbn.
    destruct (force_add_in_range i2 f2 F1) as [F2 HF2].
    { by rewrite (force_add_length _ _ _ _ HF1). }
    rewrite HF2. cbn.
    destruct (force_sub_in_range shared (Vec3d.add f1 f2) F2) as [F3 HF3].
    { by rewrite (force_add_length _ _ _ _ HF2), (force_add_length _ _ _ _ HF1). }
    rewrite HF3. cbn.
    destruct (energy_add_in_range i1 e energies He1) as [E1 HE1].
    rewrite HE1. cbn.
    destruct (energy_add_in_range i2 e E1) as [E2 HE2].
    { by rewrite (energy_add_length _ _ _ _ HE1). }
    rewrite HE2. cbn.
    destruct (energy_add_in_range shared e E2) as [E3 HE3].
    { by rewrite (energy_add_length _ _ _ _ HE2), (energy_add_length _ _ _ _ HE1). }
    rewrite HE3. cbn. eauto.
Qed.

(** The Lennard-Jones terms at [r_sqr = 1] with [es12_ = es6_ = 1]: every
    power of [r_sqr] is 1, both terms are 1, the energy is [1 - 1] and the
    scalar in front of [r_vec] is [(12 - 6) / 1]. *)
Lemma LJ_e_f_unit p1 p2 :
  Vec3d.lensqr (Vec3d.sub p1 p2) = 1%float ->
  LJ_e_f 1 1 p1 p2 = (0%float, Vec3d.scale 6 (Vec3d.sub p1 p2)).
Proof.
  intros Hr. unfold LJ_e_f. cbv zeta. rewrite Hr.
  change (1 * 1 * 1)%float with 1%float.
  change (1 * 1)%float with 1%float.
  change (1 / 1)%float with 1%float.
  change (1 - 1)%float with 0%float.
  change ((12 * 1 - 6 * 1) / 1)%float with 6%float.
  reflexivity.
Qed.

(** C8. Lennard-Jones with [es12_ = 1], [es6_ = 1] on two distinct
    particles whose squared separation [r_sqr] is 1: a successful call adds
    energy [0] to each participant, adds [6 * r_vec] to the force of the
    first and subtracts [6 * r_vec] from the force of the second, where
    [r_vec] is the separation vector (of length 1): a force of magnitude 6
    along the separation. *)
Theorem LJ_unit_separation
    i1 i2 positions p1 p2 forces energies forces' energies' :
  i1 <> i2 ->
  positions !! i1 = Some p1 -> positions !! i2 = Some p2 ->
  Vec3d.lensqr (Vec3d.sub p1 p2) = 1%float ->
  eval (LJInteraction i1 i2 1 1) positions forces energies
    = Some (forces', energies') ->
  exists e1 e2 f1 f2,
    energies !! i1 = Some e1 /\ energies !! i2 = Some e2 /\
    forces !! i1 = Some f1 /\ forces !! i2 = Some f2 /\
    energies' !! i1 = Some (e1 + 0)%float /\
    energies' !! i2 = Some (e2 + 0)%float /\
    forces' !! i1 = Some (Vec3d.add f1 (Vec3d.scale 6 (Vec3d.sub p1 p2))) /\
    forces' !! i2 = Some (Vec3d.sub f2 (Vec3d.scale 6 (Vec3d.sub p1 p2))).
Proof.
  intros Hne Hp1 Hp2 Hr Hev.
  destruct (two_body_eval_distinct (LJInteraction i1 i2 1 1) i1 i2
              _ _ _ _ _ eq_refl Hne Hev)
    as (q1 & q2 & e & f & e1 & e2 & f1 & f2 & Hq1 & Hq2 & Hef & He1 & He2 & He1' & He2'
        & Hf1 & Hf2 & Hf1' & Hf2').
  rewrite Hp1 in Hq1. rewrite Hp2 in Hq2.
  injection Hq1 as <-. injection Hq2 as <-.
  simpl in Hef. rewrite (LJ_e_f_unit _ _ Hr) in Hef. injection Hef as <- <-.
  exists e1, e2, f1, f2. done.
Qed.

End KernelProperties.

(** ** Loops *)

Section Loops.
Context {S : Type}.

Lemma for_range_ind (P : nat -> S -> Prop) (body : nat -> S -> option S) count :
  forall first s s',
  P first s ->
  (forall i t t', first <= i < first + count -> P i t -> body i t = Some t' ->
                  P (Datatypes.S i) t') ->
  for_range first count body s = Some s' ->
  P (first + count) s'.
Proof.
  induction count as [|count IH]; intros first s s' Hs Hstep Hrun; simpl in Hrun.
  - injection Hrun as <-. by rewrite Nat.add_0_r.
  - destruct (body first s) as [t|] eqn:Hb; simpl in Hrun; [|discriminate].
    replace (first + Datatypes.S count) with (Datatypes.S first + count) by lia.
    apply (IH (Datatypes.S first) t s'); [| |done].
    + apply (Hstep first s t); [lia|done|done].
    + intros i u u' Hi. apply Hstep. lia.
Qed.

Lemma for_range_total (P : nat -> S -> Prop) (body : nat -> S -> option S) count :
  forall first s,
  P first s ->
  (forall i t, first <= i < first + count -> P i t ->
               exists t', body i t = Some t' /\ P (Datatypes.S i) t') ->
  exists s', for_range first count body s = Some s' /\ P (first + count) s'.
Proof.
  induction count as [|count IH]; intros first s Hs Hstep; simpl.
  - exists s. by rewrite Nat.add_0_r.
  - destruct (Hstep first s) as (t & Hb & Ht); [lia|done|].
    rewrite Hb. simpl.
    replace (first + Datatypes.S count) with (Datatypes.S first + count) by lia.
    apply IH; [done|]. intros i u Hi. apply Hstep. lia.
Qed.
End Loops.

(** ** Wavenumbers *)

Lemma write_in_range {T} i (a : T) (v : list T) :
  i < length v -> write i a v = Some (<[i := a]> v).
Proof.
  intros Hi. unfold write. destruct (lookup_lt_is_Some_2 _ _ Hi) as [old ->]. done.
Qed.

Lemma write_Some {T} i (a : T) (v v' : list T) :
  write i a v = Some v' -> i < length v /\ v' = <[i := a]> v.
Proof.
  unfold write. destruct (v !! i) as [old|] eqn:Hold; simpl; [|discriminate].
  intros [= <-]. split; [by eapply lookup_lt_Some|done].
Qed.

Lemma wavenumber_low n sk i : i < n / 2 -> wavenumber n sk i = (of_int i * sk)%float.
Proof. intros Hi. unfold wavenumber. apply Nat.ltb_lt in Hi. by rewrite Hi. Qed.

Lemma wavenumber_high n sk i :
  n / 2 <= i -> wavenumber n sk i = (of_int i * sk - of_int n * sk)%float.
Proof. intros Hi. unfold wavenumber. apply Nat.ltb_ge in Hi. by rewrite Hi. Qed.

Lemma bind_Some {A B} (x : A) (f : A -> option B) : Some x ≫= f = f x.
Proof. reflexivity. Qed.

Lemma vector_store_in_range i a (v : vector.t) :
  i < length (vector.cells v) ->
  vector.store i a v = Some (vector.mk (vector.size v) (<[i := Some a]> (vector.cells v))).
Proof.
  intros Hi. unfold vector.store.
  destruct (lookup_lt_is_Some_2 _ _ Hi) as [old ->]. done.
Qed.

Lemma vector_lookup_cells i (v : vector.t) : v !! i = mjoin (vector.cells v !! i).
Proof. reflexivity. Qed.

Lemma vector_lookup_cell i (v : vector.t) c :
  vector.cells v !! i = Some c -> v !! i = c.
Proof. rewrite vector_lookup_cells. by intros ->. Qed.

Lemma vector_lookup_outside i (v : vector.t) :
  length (vector.cells v) <= i -> v !! i = None.
Proof.
  intros Hi. rewrite vector_lookup_cells.
  by rewrite (lookup_ge_None_2 _ _ Hi).
Qed.

Lemma k_points_lookup n sk :
  exists k, k_points n sk = Some k /\
            vector.size k = 0 /\ length (vector.cells k) = n /\
            forall i, i < n -> k !! i = Some (wavenumber n sk i).
Proof.
  unfold k_points.
  destruct (for_range_total
    (fun i (k : vector.t) =>
       vector.size k = 0 /\ length (vector.cells k) = n /\
       forall j, j < i -> k !! j = Some (wavenumber n sk j))
    (fun ix k_points =>
       k_points ← vector.store ix (of_int ix * sk)%float k_points;
       if (n / 2 <=? ix)%nat
       then old ← k_points !! ix; vector.store ix (old - of_int n * sk)%float k_points
       else Some k_points)
    n 0 (vector.reserve n)) as (k & Hk & Hsize & Hlen & Hall).
  - split; [done|]. split; [apply length_replicate|]. intros j Hj. lia.
  - intros i t [_ Hi] (Hsize & Hlen & Hdone). simpl in Hi.
    assert (Hit : i < length (vector.cells t)) by lia.
    cbn beta. rewrite (vector_store_in_range _ _ _ Hit), bind_Some.
    destruct (n / 2 <=? i)%nat eqn:Hhalf.
    + apply Nat.leb_le in Hhalf.
      rewrite (vector_lookup_cell i _ (Some (of_int i * sk)%float))
        by by apply list_lookup_insert_eq.
      rewrite bind_Some.
      rewrite vector_store_in_range by (cbn [vector.cells]; by rewrite length_insert).
      eexists. split; [reflexivity|]. cbn [vector.size vector.cells].
      rewrite !length_insert. split; [done|]. split; [done|].
      intros j Hj. destruct (decide (j = i)) as [->|Hne].
      * rewrite wavenumber_high by done. apply vector_lookup_cell.
        cbn [vector.cells]. apply list_lookup_insert_eq. by rewrite length_insert.
      * rewrite <- (Hdone j) by lia.
        rewrite !vector_lookup_cells. cbn [vector.cells].
        by rewrite !list_lookup_insert_ne by done.
    + apply Nat.leb_gt in Hhalf.
      eexists. split; [reflexivity|]. cbn [vector.size vector.cells].
      rewrite length_insert. split; [done|]. split; [done|].
      intros j Hj. destruct (decide (j = i)) as [->|Hne].
      * rewrite wavenumber_low by done. apply vector_lookup_cell.
        cbn [vector.cells]. by apply list_lookup_insert_eq.
      * rewrite <- (Hdone j) by lia.
        rewrite !vector_lookup_cells. cbn [vector.cells].
        by rewrite list_lookup_insert_ne by done.
  - exists k. simpl in Hall. eauto.
Qed.

(** On a lattice with an even number of nodes the test [ix >= int(n/2)]
    separates the indices exactly as the exact half does. *)
Lemma wavenumber_even_lattice n sk i :
  Nat.Even n ->
  wavenumber n sk i
  = if (2 * i <? n)%nat then (of_int i * sk)%float
    else (of_int i * sk - of_int n * sk)%float.
Proof.
  intros [m ->]. unfold wavenumber.
  replace (2 * m / 2) with m by (symmetry; rewrite Nat.mul_comm; apply Nat.div_mul; lia).
  destruct (i <? m)%nat eqn:Him, (2 * i <? 2 * m)%nat eqn:Him2; try reflexivity.
  - apply Nat.ltb_lt in Him. apply Nat.ltb_ge in Him2. lia.
  - apply Nat.ltb_ge in Him. apply Nat.ltb_lt in Him2. lia.
Qed.

(** On a lattice with an odd number of nodes the middle index [n/2] lies
    below the exact half, and the loop still shifts it by [-n * sk]. *)
Lemma wavenumber_odd_lattice_middle n sk :
  Nat.Odd n ->
  2 * (n / 2) < n /\
  wavenumber n sk (n / 2) = (of_int (n / 2) * sk - of_int n * sk)%float.
Proof.
  intros [m ->]. split.
  - pose proof (Nat.div_mod_eq (2 * m + 1) 2) as Hdm.
    pose proof (Nat.mod_upper_bound (2 * m + 1) 2) as Hub.
    assert (((2 * m + 1) mod 2) = 1) as Hone.
    { rewrite Nat.add_comm, Nat.mul_comm, Nat.Div0.mod_add. reflexivity. }
    lia.
  - apply wavenumber_high. lia.
Qed.

(** ** Spectral force fields *)

Section Grids.
Variable PI : double.
Variable toIndex : Vec3i -> nat -> nat -> nat -> nat.
Variable fft_data_grid : DataGrid double -> DataGrid dcomplex.
Variable ffti_data_grid : DataGrid dcomplex -> DataGrid double -> DataGrid double.
Variable empty_grid : DataGrid double.


Section Writes.
Context {T : Type}.
Variable n : Vec3i.
Variable val : nat -> nat -> nat -> T -> Prop.
Variable body : nat -> nat -> nat -> DataGrid T -> option (DataGrid T).
Variable g0 : DataGrid T.
Hypothesis apart : addresses_apart toIndex (n_grid g0) n.

Local Abbreviation written := (written toIndex n val g0).
Hypothesis body_writes : forall ix iy iz t t',
  ix < Vec3i.x n -> iy < Vec3i.y n -> iz < Vec3i.z n ->
  body ix iy iz t = Some t' ->
  exists a, val ix iy iz a /\ set_at toIndex t ix iy iz a = Some t'.

Lemma written_step seen ix iy iz t t' :
  ix < Vec3i.x n -> iy < Vec3i.y n -> iz < Vec3i.z n ->
  written seen t -> body ix iy iz t = Some t' ->
  written (fun a b c => seen a b c \/ (a = ix /\ b = iy /\ c = iz)) t'.
Proof.
  intros Hx Hy Hz [Hn Hdone] Hb.
  destruct (body_writes _ _ _ _ _ Hx Hy Hz Hb) as (v & Hv & Hset).
  unfold set_at in Hset.
  destruct (write (toIndex (n_grid t) ix iy iz) v (values t)) as [vs|] eqn:Hw;
    simpl in Hset; [|discriminate].
  injection Hset as <-. apply write_Some in Hw as [Hlt ->].
  split; [done|].
  intros a b c Ha Hb' Hc Hd.
  destruct (decide (a = ix /\ b = iy /\ c = iz)) as [(-> & -> & ->)|Hother].
  - exists v. split; [done|]. unfold at_. simpl.
    by rewrite list_lookup_insert_eq.
  - destruct Hd as [Hold|Hsame]; [|done].
    destruct (Hdone a b c Ha Hb' Hc Hold) as (w & Hw & Hat).
    exists w. split; [done|]. unfold at_ in *. simpl.
    rewrite list_lookup_insert_ne; [done|].
    rewrite Hn. intros Heq. apply Hother. symmetry in Heq.
    by apply apart in Heq.
Qed.

Lemma written_weaken (seen seen' : nat -> nat -> nat -> Prop) t :
  (forall a b c, a < Vec3i.x n -> b < Vec3i.y n -> c < Vec3i.z n ->
     seen' a b c -> seen a b c) ->
  written seen t -> written seen' t.
Proof. intros Himp [Hn Hdone]. split; [done|]. intros a b c Ha Hb Hc Hd. eauto. Qed.

Lemma for_nodes_written g' :
  for_nodes n body g0 = Some g' ->
  n_grid g' = n_grid g0 /\
  forall a b c, a < Vec3i.x n -> b < Vec3i.y n -> c < Vec3i.z n ->
    exists v, val a b c v /\ at_ toIndex g' a b c = Some v.
Proof.
  unfold for_nodes. intros Hrun.
  apply (for_range_ind (fun ix t => written (passed ix 0 0) t)) in Hrun.
  - destruct Hrun as [Hn Hall]. split; [done|].
    intros a b c Ha Hb Hc. apply Hall; try done. left. simpl. lia.
  - split; [done|]. intros a b c _ _ _ Hp. unfold passed in Hp. lia.
  - intros ix t t' [_ Hix] Ht Hmid. simpl in Hix.
    apply (for_range_ind (fun iy u => written (passed ix iy 0) u)) in Hmid.
    + eapply written_weaken; [|exact Hmid].
      unfold passed. simpl. intros a b c Ha Hb Hc. lia.
    + done.
    + intros iy u u' [_ Hiy] Hu Hin. simpl in Hiy.
      apply (for_range_ind (fun iz w => written (passed ix iy iz) w)) in Hin.
      * eapply written_weaken; [|exact Hin].
        unfold passed. simpl. intros a b c Ha Hb Hc. lia.
      * done.
      * intros iz w w' [_ Hiz] Hw Hb. simpl in Hiz.
        eapply written_weaken; [|exact (written_step _ _ _ _ _ _ Hix Hiy Hiz Hw Hb)].
        unfold passed. simpl. intros a b c Ha Hb' Hc. lia.
Qed.
End Writes.

Lemma fill_spectrum_nodes mult a n ks (E temp temp' : DataGrid dcomplex) :
  addresses_apart toIndex (n_grid temp) n ->
  fill_spectrum toIndex mult a n ks E temp = Some temp' ->
  n_grid temp' = n_grid temp /\
  forall ix iy iz, ix < Vec3i.x n -> iy < Vec3i.y n -> iz < Vec3i.z n ->
    exists k e,
      ks !! index_along a ix iy iz = Some k /\
      at_ toIndex E ix iy iz = Some e /\
      at_ toIndex temp' ix iy iz = Some (mult k e).
Proof.
  intros Hapart Hfill. unfold fill_spectrum in Hfill.
  apply (for_nodes_written n
           (fun ix iy iz v => exists k e,
              ks !! index_along a ix iy iz = Some k /\
              at_ toIndex E ix iy iz = Some e /\ v = mult k e)) in Hfill; [|done|].
  - destruct Hfill as [Hn Hall]. split; [done|].
    intros ix iy iz Hx Hy Hz.
    destruct (Hall ix iy iz Hx Hy Hz) as (v & (k & e & Hk & He & ->) & Hat).
    eauto.
  - intros ix iy iz t t' _ _ _ Hb.
    destruct (ks !! index_along a ix iy iz) as [k|] eqn:Hk; simpl in Hb; [|discriminate].
    destruct (at_ toIndex E ix iy iz) as [e|] eqn:He; simpl in Hb; [|discriminate].
    exists (mult k e). split; [|done]. eauto.
Qed.

Lemma store_component_values a count (temp : DataGrid double) (force force' : DataGrid Vec3d) :
  store_component a count temp force = Some force' ->
  length (values force') = length (values force) /\
  (forall ind, ind < count ->
     exists old c,
       values force !! ind = Some old /\ values temp !! ind = Some c /\
       values force' !! ind = Some (set_component a old c)) /\
  (forall ind, count <= ind -> values force' !! ind = values force !! ind).
Proof.
  unfold store_component. intros Hrun.
  apply (for_range_ind (fun i (t : DataGrid Vec3d) =>
           length (values t) = length (values force) /\
           (forall ind, ind < i ->
              exists old c,
                values force !! ind = Some old /\ values temp !! ind = Some c /\
                values t !! ind = Some (set_component a old c)) /\
           (forall ind, i <= ind -> values t !! ind = values force !! ind))) in Hrun.
  - done.
  - split; [done|]. split; [|done]. intros ind Hind. lia.
  - intros i t t' _ (Hlen & Hlow & Hhigh) Hb.
    destruct (values temp !! i) as [c|] eqn:Hc; simpl in Hb; [|discriminate].
    destruct (values t !! i) as [old|] eqn:Hold; simpl in Hb; [|discriminate].
    injection Hb as <-. simpl. rewrite length_insert.
    split; [done|]. split.
    + intros ind Hind. destruct (decide (ind = i)) as [->|Hne].
      * exists old, c. rewrite <- (Hhigh i) by lia.
        split; [done|]. split; [done|].
        apply list_lookup_insert_eq. by eapply lookup_lt_Some.
      * rewrite list_lookup_insert_ne by done. apply Hlow. lia.
    + intros ind Hind. rewrite list_lookup_insert_ne by lia. apply Hhigh. lia.
Qed.

Lemma force_fields_components mult n o (E rho : DataGrid dcomplex) (force0 force : DataGrid Vec3d) :
  addresses_apart toIndex (n_grid rho) n ->
  force_fields toIndex ffti_data_grid empty_grid mult n o E rho force0 = Some force ->
  exists kx ky kz Sx Sy Sz,
    k_points (Vec3i.x n) (Vec3d.x (spacing E)) = Some kx /\
    k_points (Vec3i.y n) (Vec3d.y (spacing E)) = Some ky /\
    k_points (Vec3i.z n) (Vec3d.z (spacing E)) = Some kz /\
    fill_spectrum toIndex mult AxisX n kx E rho = Some Sx /\
    fill_spectrum toIndex mult AxisY n ky E Sx = Some Sy /\
    fill_spectrum toIndex mult AxisZ n kz E Sy = Some Sz /\
    forall ind, ind < Vec3i.x n * Vec3i.y n * Vec3i.z n ->
      exists cx cy cz,
        values (ffti_data_grid Sx (setOrigin empty_grid o)) !! ind = Some cx /\
        values (ffti_data_grid Sy (ffti_data_grid Sx (setOrigin empty_grid o))) !! ind
          = Some cy /\
        values (ffti_data_grid Sz
                  (ffti_data_grid Sy (ffti_data_grid Sx (setOrigin empty_grid o)))) !! ind
          = Some cz /\
        values force !! ind = Some (Vec3d.mk cx cy cz).
Proof.
  intros Hapart Hrun. unfold force_fields in Hrun.
  destruct (k_points (Vec3i.x n) _) as [kx|] eqn:Hkx; simpl in Hrun; [|discriminate].
  destruct (k_points (Vec3i.y n) _) as [ky|] eqn:Hky; simpl in Hrun; [|discriminate].
  destruct (k_points (Vec3i.z n) _) as [kz|] eqn:Hkz; simpl in Hrun; [|discriminate].
  destruct (fill_spectrum toIndex mult AxisX n kx E rho) as [Sx|] eqn:HSx;
    simpl in Hrun; [|discriminate].
  destruct (store_component AxisX _ _ force0) as [Fx|] eqn:HFx;
    simpl in Hrun; [|discriminate].
  destruct (fill_spectrum toIndex mult AxisY n ky E Sx) as [Sy|] eqn:HSy;
    simpl in Hrun; [|discriminate].
  destruct (store_component AxisY _ _ Fx) as [Fy|] eqn:HFy;
    simpl in Hrun; [|discriminate].
  destruct (fill_spectrum toIndex mult AxisZ n kz E Sy) as [Sz|] eqn:HSz;
    simpl in Hrun; [|discriminate].
  destruct (store_component AxisZ _ _ Fy) as [Fz|] eqn:HFz;
    simpl in Hrun; [|discriminate].
  injection Hrun as <-.
  exists kx, ky, kz, Sx, Sy, Sz. repeat (split; [done|]).
  intros ind Hind.
  apply store_component_values in HFx as (_ & HFx & _).
  apply store_component_values in HFy as (_ & HFy & _).
  apply store_component_values in HFz as (_ & HFz & _).
  destruct (HFx ind Hind) as (f0 & cx & Hf0 & Hcx & Hfx).
  destruct (HFy ind Hind) as (f1 & cy & Hf1 & Hcy & Hfy).
  destruct (HFz ind Hind) as (f2 & cz & Hf2 & Hcz & Hfz).
  rewrite Hfx in Hf1. injection Hf1 as <-.
  rewrite Hfy in Hf2. injection Hf2 as <-.
  exists cx, cy, cz. repeat (split; [done|]). by rewrite Hfz.
Qed.


(** The factor in front of the energy spectrum is [-i·2π·k]: real part
    [0 * (-2π) * k], imaginary part [1 * (-2π) * k]. *)
Lemma force_multiplier_factor k e :
  force_multiplier PI k e
  = dcomplex.mul (dcomplex.mk (0 * (-2 * PI) * k) (1 * (-2 * PI) * k)) e.
Proof. reflexivity. Qed.

(** C2, as the code has it. When the constructor returns a force grid, there
    are three spectra [Sx], [Sy], [Sz] that hold, at every node of the
    lattice, the energy spectrum at that node multiplied by [-i·2π] times the
    wavenumber of the node along x, y and z ([force_multiplier]); and at
    every place of the value array the x, y and z components of the stored
    force are the values there of the inverse transforms of [Sx], [Sy] and
    [Sz], taken in this order into the same real-space scratch lattice. *)
Theorem force_components_from_spectrum e_potential rho_tip fg :
  addresses_apart toIndex (n_grid (fft_data_grid rho_tip)) (n_grid e_potential) ->
  build_force_grid PI toIndex fft_data_grid ffti_data_grid empty_grid e_potential rho_tip
    = Some fg ->
  exists energy_kspace kx ky kz Sx Sy Sz,
    energy_spectrum toIndex (n_grid e_potential) (spacing e_potential)
      (fft_data_grid e_potential) (fft_data_grid rho_tip) = Some energy_kspace /\
    k_points (Vec3i.x (n_grid e_potential)) (Vec3d.x (spacing energy_kspace)) = Some kx /\
    k_points (Vec3i.y (n_grid e_potential)) (Vec3d.y (spacing energy_kspace)) = Some ky /\
    k_points (Vec3i.z (n_grid e_potential)) (Vec3d.z (spacing energy_kspace)) = Some kz /\
    fill_spectrum toIndex (force_multiplier PI) AxisX (n_grid e_potential) kx
      energy_kspace (fft_data_grid rho_tip) = Some Sx /\
    fill_spectrum toIndex (force_multiplier PI) AxisY (n_grid e_potential) ky
      energy_kspace Sx = Some Sy /\
    fill_spectrum toIndex (force_multiplier PI) AxisZ (n_grid e_potential) kz
      energy_kspace Sy = Some Sz /\
    (forall ix iy iz,
        ix < Vec3i.x (n_grid e_potential) ->
        iy < Vec3i.y (n_grid e_potential) ->
        iz < Vec3i.z (n_grid e_potential) ->
        exists e k_x k_y k_z,
          at_ toIndex energy_kspace ix iy iz = Some e /\
          kx !! ix = Some k_x /\ ky !! iy = Some k_y /\ kz !! iz = Some k_z /\
          at_ toIndex Sx ix iy iz = Some (force_multiplier PI k_x e) /\
          at_ toIndex Sy ix iy iz = Some (force_multiplier PI k_y e) /\
          at_ toIndex Sz ix iy iz = Some (force_multiplier PI k_z e)) /\
    (forall ind,
        ind < Vec3i.x (n_grid e_potential) * Vec3i.y (n_grid e_potential)
              * Vec3i.z (n_grid e_potential) ->
        exists f,
          forces_ fg !! ind = Some f /\
          values (ffti_data_grid Sx (setOrigin empty_grid (origin e_potential))) !! ind
            = Some (Vec3d.x f) /\
          values (ffti_data_grid Sy
                    (ffti_data_grid Sx (setOrigin empty_grid (origin e_potential)))) !! ind
            = Some (Vec3d.y f) /\
          values (ffti_data_grid Sz
                    (ffti_data_grid Sy
                       (ffti_data_grid Sx
                          (setOrigin empty_grid (origin e_potential))))) !! ind
            = Some (Vec3d.z f)).
Proof.
  intros Hapart Hbuild. unfold build_force_grid in Hbuild.
  destruct (energy_spectrum toIndex _ _ _ _) as [E|] eqn:HE; simpl in Hbuild; [|discriminate].
  destruct (force_fields _ _ _ _ _ _ _ _ _) as [force|] eqn:Hff;
    simpl in Hbuild; [|discriminate].
  injection Hbuild as <-. simpl.
  destruct (force_fields_components _ _ _ _ _ _ _ Hapart Hff)
    as (kx & ky & kz & Sx & Sy & Sz & Hkx & Hky & Hkz & HSx & HSy & HSz & Hforce).
  exists E, kx, ky, kz, Sx, Sy, Sz. repeat (split; [done|]).
  destruct (fill_spectrum_nodes _ _ _ _ _ _ _ Hapart HSx) as [HnSx HSx'].
  rewrite <- HnSx in Hapart.
  destruct (fill_spectrum_nodes _ _ _ _ _ _ _ Hapart HSy) as [HnSy HSy'].
  rewrite <- HnSy in Hapart.
  destruct (fill_spectrum_nodes _ _ _ _ _ _ _ Hapart HSz) as [_ HSz'].
  split.
  - intros ix iy iz Hx Hy Hz.
    destruct (HSx' ix iy iz Hx Hy Hz) as (k_x & e & Hk_x & He & Hat_x).
    destruct (HSy' ix iy iz Hx Hy Hz) as (k_y & e' & Hk_y & He' & Hat_y).
    destruct (HSz' ix iy iz Hx Hy Hz) as (k_z & e'' & Hk_z & He'' & Hat_z).
    rewrite He in He', He''. injection He' as <-. injection He'' as <-.
    exists e, k_x, k_y, k_z. done.
  - intros ind Hind.
    destruct (Hforce ind Hind) as (cx & cy & cz & Hcx & Hcy & Hcz & Hf).
    exists (Vec3d.mk cx cy cz). done.
Qed.

End Grids.

(** ** Kernel calls as lists of updates *)

Section UpdateProperties.

Variable exp : double -> double.
Variable pow : double -> double -> double.
Variable acos : double -> double.
Variable sin : double -> double.
Variable atan : double -> double.
Variable TOLERANCE : double.
Variable interpolate : ForceGrid -> Vec3d -> Vec3d * double.

Local Abbreviation eval := (eval exp pow acos sin atan TOLERANCE interpolate).
Local Abbreviation updates := (updates exp pow acos sin atan TOLERANCE interpolate).

(** [eval] is its list of updates, applied in order. *)
Lemma eval_updates k positions forces energies :
  eval k positions forces energies
  = us ← updates k positions; apply_updates us forces energies.
Proof.
  destruct k; cbn;
    repeat match goal with
    | |- context [?l !! ?i] =>
        match l with positions => destruct (l !! i); cbn; [|reflexivity] end
    end;
    repeat match goal with
    | |- context [let '(_, _) := ?t in _] => destruct t; cbn
    end;
    repeat match goal with
    | |- context [force_add ?i ?f ?F] => destruct (force_add i f F); cbn; [|reflexivity]
    | |- context [force_sub ?i ?f ?F] => destruct (force_sub i f F); cbn; [|reflexivity]
    | |- context [force_add_z ?i ?f ?F] => destruct (force_add_z i f F); cbn; [|reflexivity]
    | |- context [energy_add ?i ?f ?F] => destruct (energy_add i f F); cbn; [|reflexivity]
    end; reflexivity.
Qed.

Lemma updates_indices k positions us :
  updates k positions = Some us ->
  force_indices us = participants k /\ energy_indices us = participants k.
Proof.
  destruct k; cbn;
    repeat match goal with
    | |- context [?l !! ?i] =>
        match l with positions => destruct (l !! i); cbn; [|discriminate] end
    end;
    repeat match goal with
    | |- context [let '(_, _) := ?t in _] => destruct t; cbn
    end;
    intros [= <-]; done.
Qed.

Lemma updates_is_Some k positions :
  is_Some (updates k positions) <->
  Forall (fun i => i < length positions) (participants k).
Proof.
  split.
  - intros [us Hus]. destruct k; cbn in Hus;
      repeat match goal with
      | H : context [?l !! ?i] |- _ =>
          match l with
          | positions =>
              let E := fresh "Hp" in
              destruct (l !! i) eqn:E; cbn in H; [|discriminate H];
              apply lookup_lt_Some in E
          end
      end; cbn; repeat constructor; done.
  - intros Hall. destruct k; cbn in Hall |- *;
      repeat match goal with
      | H : Forall _ (_ :: _) |- _ =>
          let Hi := fresh "Hi" in
          apply Forall_cons in H as [Hi H];
          apply lookup_lt_is_Some_2 in Hi as [? Hi]; rewrite ?Hi; cbn
      end;
      repeat match goal with
      | H : ?l !! ?i = Some _ |- context [?l !! ?i] => rewrite H; cbn
      end;
      repeat match goal with
      | |- context [let '(_, _) := ?t in _] => destruct t; cbn
      end; eauto.
Qed.

End UpdateProperties.

Lemma apply_update_length u forces energies forces' energies' :
  apply_update u forces energies = Some (forces', energies') ->
  length forces' = length forces /\ length energies' = length energies.
Proof.
  destruct u; cbn; intros H; split_updates; rewrite ?length_insert; done.
Qed.

Lemma apply_updates_length us : forall forces energies forces' energies',
  apply_updates us forces energies = Some (forces', energies') ->
  length forces' = length forces /\ length energies' = length energies.
Proof.
  induction us as [|u us IH]; intros F E F' E' H; cbn in H.
  - by injection H as <- <-.
  - destruct (apply_update u F E) as [[F1 E1]|] eqn:Hu; cbn in H; [|discriminate].
    apply apply_update_length in Hu as [HF HE].
    apply IH in H as [HF' HE']. split; congruence.
Qed.

Lemma apply_update_is_Some u forces energies :
  is_Some (apply_update u forces energies) <->
  Forall (fun i => i < length forces) (force_indices [u]) /\
  Forall (fun i => i < length energies) (energy_indices [u]).
Proof.
  destruct u; cbn; rewrite ?Forall_singleton, ?Forall_nil; split.
  all: try (intros [[F E] H]; split_updates; split; [|done]; by eapply lookup_lt_Some).
  all: try (intros [[F E] H]; split_updates; split; [done|]; by eapply lookup_lt_Some).
  - intros [Hi _]. destruct (force_add_in_range i f forces Hi) as [F ->]. cbn. eauto.
  - intros [Hi _]. destruct (force_sub_in_range i f forces Hi) as [F ->]. cbn. eauto.
  - intros [Hi _]. destruct (force_add_z_in_range i v forces Hi) as [F ->]. cbn. eauto.
  - intros [_ Hi]. destruct (energy_add_in_range i e energies Hi) as [F ->]. cbn. eauto.
Qed.

Lemma force_indices_cons u us :
  force_indices (u :: us) = force_indices [u] ++ force_indices us.
Proof. by destruct u. Qed.

Lemma energy_indices_cons u us :
  energy_indices (u :: us) = energy_indices [u] ++ energy_indices us.
Proof. by destruct u. Qed.

Lemma apply_updates_is_Some us : forall forces energies,
  is_Some (apply_updates us forces energies) <->
  Forall (fun i => i < length forces) (force_indices us) /\
  Forall (fun i => i < length energies) (energy_indices us).
Proof.
  induction us as [|u us IH]; intros F E.
  - cbn. split; [intros _; split; constructor|eauto].
  - rewrite force_indices_cons, energy_indices_cons, !Forall_app.
    cbn [apply_updates]. split.
    + intros [[F' E'] H].
      destruct (apply_update u F E) as [[F1 E1]|] eqn:Hu; cbn in H; [|discriminate].
      pose proof (apply_update_length _ _ _ _ _ Hu) as [HF HE].
      assert (is_Some (apply_update u F E)) as Hs by eauto.
      apply apply_update_is_Some in Hs as [Hs1 Hs2].
      assert (is_Some (apply_updates us F1 E1)) as Hr by eauto.
      apply IH in Hr as [Hr1 Hr2]. rewrite HF in Hr1. rewrite HE in Hr2. done.
    + intros [[Hu1 Hr1] [Hu2 Hr2]].
      destruct (proj2 (apply_update_is_Some u F E) (conj Hu1 Hu2)) as [[F1 E1] Hu].
      rewrite Hu. cbn.
      pose proof (apply_update_length _ _ _ _ _ Hu) as [HF HE].
      apply IH. rewrite HF, HE. done.
Qed.

Lemma apply_update_frame u forces energies forces' energies' :
  apply_update u forces energies = Some (forces', energies') ->
  (forall j, j ∉ force_indices [u] -> forces' !! j = forces !! j) /\
  (forall j, j ∉ energy_indices [u] -> energies' !! j = energies !! j).
Proof.
  destruct u; cbn; intros H; split_updates; split; intros j Hj; try done;
    apply list_lookup_insert_ne; intros ->; apply Hj; by left.
Qed.

Lemma apply_updates_frame us : forall forces energies forces' energies',
  apply_updates us forces energies = Some (forces', energies') ->
  (forall j, j ∉ force_indices us -> forces' !! j = forces !! j) /\
  (forall j, j ∉ energy_indices us -> energies' !! j = energies !! j).
Proof.
  induction us as [|u us IH]; intros F E F' E' H; cbn [apply_updates] in H.
  - by injection H as <- <-.
  - destruct (apply_update u F E) as [[F1 E1]|] eqn:Hu; cbn in H; [|discriminate].
    apply apply_update_frame in Hu as [HuF HuE].
    apply IH in H as [HF HE].
    rewrite force_indices_cons, energy_indices_cons. split; intros j Hj.
    + rewrite HF, HuF; [done| |]; intros Hin; apply Hj; apply elem_of_app; eauto.
    + rewrite HE, HuE; [done| |]; intros Hin; apply Hj; apply elem_of_app; eauto.
Qed.

Lemma apply_updates_app us1 us2 : forall forces energies,
  apply_updates (us1 ++ us2) forces energies
  = '(forces, energies) ← apply_updates us1 forces energies;
    apply_updates us2 forces energies.
Proof.
  induction us1 as [|u us1 IH]; intros F E; cbn; [done|].
  destruct (apply_update u F E) as [[F1 E1]|]; cbn; [|done]. apply IH.
Qed.

(** [v[i] = h(v[i])] on a vector that holds [i]. *)
Lemma modify_commute {A} (h g : A -> A) i j (l : list A) :
  i <> j ->
  (l1 ← (old ← l !! i; Some (<[i := h old]> l)); old ← l1 !! j; Some (<[j := g old]> l1))
  = (l2 ← (old ← l !! j; Some (<[j := g old]> l)); old ← l2 !! i; Some (<[i := h old]> l2)).
Proof.
  intros Hij.
  destruct (l !! i) as [a|] eqn:Hi, (l !! j) as [b|] eqn:Hj; cbn.
  - rewrite !list_lookup_insert_ne by done. rewrite Hi, Hj. cbn.
    by rewrite list_insert_insert_ne.
  - rewrite list_lookup_insert_ne by done. by rewrite Hj.
  - rewrite list_lookup_insert_ne by done. by rewrite Hi.
  - done.
Qed.

(** Two updates that address different entries can be swapped. *)
Lemma apply_update_commute u1 u2 forces energies :
  no_common_index (force_indices [u1]) (force_indices [u2]) ->
  no_common_index (energy_indices [u1]) (energy_indices [u2]) ->
  ('(forces, energies) ← apply_update u1 forces energies; apply_update u2 forces energies)
  = ('(forces, energies) ← apply_update u2 forces energies; apply_update u1 forces energies).
Proof.
  intros HF HE.
  destruct u1 as [i f|i f|i v|i e], u2 as [j g|j g|j w|j d]; cbn in *;
    unfold force_add, force_sub, force_add_z, energy_add.
  all: try (assert (i <> j) as Hij
              by (intros ->; solve [eapply (HF j); by left | eapply (HE j); by left])).
  all: try match goal with
       | Hij : ?a <> ?b |- context [?l !! ?a ≫= (fun old => Some (<[?a := @?h old]> ?l))] =>
         match goal with
         | |- context [l !! b ≫= (fun old => Some (<[b := @?g old]> l))] =>
             pose proof (modify_commute h g a b l Hij) as Hc
         end
       end.
  all: try (cbn in Hc;
            match goal with
            | Hij : ?a <> ?b |- _ =>
                destruct (forces !! a) as [fi|] eqn:Hi; cbn in *;
                destruct (forces !! b) as [fj|] eqn:Hj; cbn in *;
                rewrite ?Hi, ?Hj in *; cbn in *;
                repeat match goal with
                | |- context [<[?c := ?x]> ?l !! ?d] =>
                    destruct (<[c := x]> l !! d); cbn in *
                end; congruence
            end).
  all: try (cbn in Hc;
            match goal with
            | Hij : ?a <> ?b |- _ =>
                destruct (energies !! a) as [fi|] eqn:Hi; cbn in *;
                destruct (energies !! b) as [fj|] eqn:Hj; cbn in *;
                rewrite ?Hi, ?Hj in *; cbn in *;
                repeat match goal with
                | |- context [<[?c := ?x]> ?l !! ?d] =>
                    destruct (<[c := x]> l !! d); cbn in *
                end; congruence
            end).
  all: repeat match goal with
       | H : ?l !! ?a = _ |- context [?l !! ?a] => rewrite H; cbn
       | |- context [?l !! ?a] =>
           let E := fresh "Hl" in destruct (l !! a) eqn:E; cbn
       end; reflexivity.
Qed.

Lemma no_common_index_cons_r l (u : Update) us (f : list Update -> list nat) :
  (forall u us, f (u :: us) = f [u] ++ f us) ->
  no_common_index l (f (u :: us)) ->
  no_common_index l (f [u]) /\ no_common_index l (f us).
Proof.
  intros Hf H. rewrite Hf in H.
  split; intros i Hi Hi'; apply (H i Hi); apply elem_of_app; eauto.
Qed.

Lemma no_common_index_cons_l l (u : Update) us (f : list Update -> list nat) :
  (forall u us, f (u :: us) = f [u] ++ f us) ->
  no_common_index (f (u :: us)) l ->
  no_common_index (f [u]) l /\ no_common_index (f us) l.
Proof.
  intros Hf H. rewrite Hf in H.
  split; intros i Hi Hi'; apply (H i); [apply elem_of_app| | apply elem_of_app|]; eauto.
Qed.

(** One update moves past a list of updates on other entries. *)
Lemma apply_update_past u us : forall forces energies,
  no_common_index (force_indices [u]) (force_indices us) ->
  no_common_index (energy_indices [u]) (energy_indices us) ->
  ('(forces, energies) ← apply_update u forces energies; apply_updates us forces energies)
  = ('(forces, energies) ← apply_updates us forces energies; apply_update u forces energies).
Proof.
  induction us as [|v us IH]; intros F E HF HE.
  - cbn. by destruct (apply_update u F E) as [[F1 E1]|].
  - apply (no_common_index_cons_r _ _ _ force_indices force_indices_cons) in HF as [HFv HFus].
    apply (no_common_index_cons_r _ _ _ energy_indices energy_indices_cons) in HE as [HEv HEus].
    cbn [apply_updates].
    transitivity ('(F1, E1) ← ('(F0, E0) ← apply_update u F E; apply_update v F0 E0);
                  apply_updates us F1 E1).
    { destruct (apply_update u F E) as [[F0 E0]|]; cbn; [|done]. done. }
    rewrite (apply_update_commute u v F E HFv HEv).
    destruct (apply_update v F E) as [[F0 E0]|]; cbn; [|done].
    apply IH; done.
Qed.

Lemma apply_updates_commute us1 : forall us2 forces energies,
  no_common_index (force_indices us1) (force_indices us2) ->
  no_common_index (energy_indices us1) (energy_indices us2) ->
  ('(forces, energies) ← apply_updates us1 forces energies; apply_updates us2 forces energies)
  = ('(forces, energies) ← apply_updates us2 forces energies; apply_updates us1 forces energies).
Proof.
  induction us1 as [|u us1 IH]; intros us2 F E HF HE.
  - cbn. by destruct (apply_updates us2 F E) as [[F1 E1]|].
  - apply (no_common_index_cons_l _ _ _ force_indices force_indices_cons) in HF as [HFu HFus].
    apply (no_common_index_cons_l _ _ _ energy_indices energy_indices_cons) in HE as [HEu HEus].
    cbn [apply_updates].
    transitivity ('(F0, E0) ← apply_update u F E;
                  '(F1, E1) ← apply_updates us2 F0 E0; apply_updates us1 F1 E1).
    { destruct (apply_update u F E) as [[F0 E0]|]; cbn; [|done]. apply IH; done. }
    transitivity ('(F1, E1) ← ('(F0, E0) ← apply_update u F E; apply_updates us2 F0 E0);
                  apply_updates us1 F1 E1).
    { destruct (apply_update u F E) as [[F0 E0]|]; cbn; done. }
    rewrite (apply_update_past u us2 F E HFu HEu).
    destruct (apply_updates us2 F E) as [[F0 E0]|]; cbn; done.
Qed.

Section EvalProperties.

Variable exp : double -> double.
Variable pow : double -> double -> double.
Variable acos : double -> double.
Variable sin : double -> double.
Variable atan : double -> double.
Variable TOLERANCE : double.
Variable interpolate : ForceGrid -> Vec3d -> Vec3d * double.

Local Abbreviation eval := (eval exp pow acos sin atan TOLERANCE interpolate).
Local Abbreviation updates := (updates exp pow acos sin atan TOLERANCE interpolate).

(** X1. A kernel call returns exactly when every particle it acts on has an
    entry in the position array, in the force array and in the energy
    array. *)
Theorem eval_returns_iff_participants_in_range k positions forces energies :
  is_Some (eval k positions forces energies) <->
  Forall (fun i => i < length positions /\ i < length forces /\ i < length energies)
         (participants k).
Proof.
  rewrite (eval_updates exp pow acos sin atan TOLERANCE interpolate).
  rewrite !Forall_and.
  rewrite <- (updates_is_Some exp pow acos sin atan TOLERANCE interpolate).
  split.
  - intros [s Hs].
    destruct (updates k positions) as [us|] eqn:Hus; cbn in Hs; [|discriminate].
    destruct (updates_indices _ _ _ _ _ _ _ _ _ _ Hus) as [HF HE].
    split; [eauto|].
    destruct (proj1 (apply_updates_is_Some us forces energies)) as [H1 H2]; [eauto|].
    rewrite HF in H1. rewrite HE in H2. done.
  - intros [[us Hus] Hin]. rewrite Hus. cbn.
    destruct (updates_indices _ _ _ _ _ _ _ _ _ _ Hus) as [HF HE].
    apply apply_updates_is_Some. by rewrite HF, HE.
Qed.

(** X2. A kernel call keeps the lengths of both accumulators and leaves the
    force and the energy of every particle it does not act on as they
    were. *)
Theorem eval_changes_participants_only
    k positions forces energies forces' energies' :
  eval k positions forces energies = Some (forces', energies') ->
  length forces' = length forces /\ length energies' = length energies /\
  forall j, j ∉ participants k ->
    forces' !! j = forces !! j /\ energies' !! j = energies !! j.
Proof.
  rewrite (eval_updates exp pow acos sin atan TOLERANCE interpolate).
  intros Hev.
  destruct (updates k positions) as [us|] eqn:Hus; cbn in Hev; [|discriminate].
  destruct (updates_indices _ _ _ _ _ _ _ _ _ _ Hus) as [HF HE].
  destruct (apply_updates_length _ _ _ _ _ Hev) as [HlF HlE].
  destruct (apply_updates_frame _ _ _ _ _ Hev) as [HfF HfE].
  rewrite HF in HfF. rewrite HE in HfE.
  split; [done|]. split; [done|]. intros j Hj. split; eauto.
Qed.

(** X3. Two kernels that act on disjoint sets of particles can be called in
    either order: both orders fail together or leave the same force and
    energy arrays. *)
Theorem kernels_on_disjoint_particles_commute k1 k2 positions forces energies :
  no_common_index (participants k1) (participants k2) ->
  ('(forces, energies) ← eval k1 positions forces energies;
   eval k2 positions forces energies)
  = ('(forces, energies) ← eval k2 positions forces energies;
     eval k1 positions forces energies).
Proof.
  intros Hdisj.
  transitivity (us1 ← updates k1 positions; us2 ← updates k2 positions;
                '(F, E) ← apply_updates us1 forces energies; apply_updates us2 F E).
  { rewrite (eval_updates exp pow acos sin atan TOLERANCE interpolate k1).
    destruct (updates k1 positions) as [us1|]; cbn; [|done].
    destruct (updates k2 positions) as [us2|] eqn:H2; cbn.
    - destruct (apply_updates us1 forces energies) as [[F E]|]; cbn; [|done].
      rewrite (eval_updates exp pow acos sin atan TOLERANCE interpolate k2).
      by rewrite H2.
    - destruct (apply_updates us1 forces energies) as [[F E]|]; cbn; [|done].
      rewrite (eval_updates exp pow acos sin atan TOLERANCE interpolate k2).
      by rewrite H2. }
  transitivity (us1 ← updates k1 positions; us2 ← updates k2 positions;
                '(F, E) ← apply_updates us2 forces energies; apply_updates us1 F E).
  { destruct (updates k1 positions) as [us1|] eqn:H1; cbn; [|done].
    destruct (updates k2 positions) as [us2|] eqn:H2; cbn; [|done].
    destruct (updates_indices _ _ _ _ _ _ _ _ _ _ H1) as [HF1 HE1].
    destruct (updates_indices _ _ _ _ _ _ _ _ _ _ H2) as [HF2 HE2].
    apply apply_updates_commute; by rewrite ?HF1, ?HF2, ?HE1, ?HE2. }
  rewrite (eval_updates exp pow acos sin atan TOLERANCE interpolate k2).
  destruct (updates k2 positions) as [us2|] eqn:H2; cbn.
  - destruct (updates k1 positions) as [us1|] eqn:H1; cbn.
    + destruct (apply_updates us2 forces energies) as [[F E]|]; cbn; [|done].
      rewrite (eval_updates exp pow acos sin atan TOLERANCE interpolate k1).
      by rewrite H1.
    + destruct (apply_updates us2 forces energies) as [[F E]|]; cbn; [|done].
      rewrite (eval_updates exp pow acos sin atan TOLERANCE interpolate k1).
      by rewrite H1.
  - by destruct (updates k1 positions).
Qed.

End EvalProperties.

(** ** Coincident particles *)

Section MoreBinary64.

Lemma Prim2SF_zero : Prim2SF 0 = S754_zero false.
Proof. reflexivity. Qed.

Lemma Prim2SF_nan : Prim2SF nan = S754_nan.
Proof. reflexivity. Qed.

(** A finite number minus itself is [+0]. *)
Lemma sub_self (a : double) : finite a = true -> (a - a)%float = 0%float.
Proof.
  unfold finite. intros Hfin. apply Prim2SF_inj. rewrite sub_spec, Prim2SF_zero.
  destruct (Prim2SF a) as [s|s| |s m e]; try discriminate.
  - by destruct s.
  - unfold SF64sub, SFsub. rewrite Z.sub_diag. reflexivity.
Qed.

(** Whatever is divided by [+0] and then multiplied by [+0] is NaN. *)
Lemma div_zero_mul_zero (a : double) : (a / 0 * 0)%float = nan.
Proof.
  apply Prim2SF_inj. rewrite mul_spec, div_spec, Prim2SF_zero, Prim2SF_nan.
  destruct (Prim2SF a) as [s|s| |s m e]; reflexivity.
Qed.

Lemma add_nan (a : double) : (a + nan)%float = nan.
Proof.
  apply Prim2SF_inj. rewrite add_spec, Prim2SF_nan.
  destruct (Prim2SF a) as [s|s| |s m e]; reflexivity.
Qed.

Lemma sub_nan (a : double) : (a - nan)%float = nan.
Proof.
  apply Prim2SF_inj. rewrite sub_spec, Prim2SF_nan.
  destruct (Prim2SF a) as [s|s| |s m e]; reflexivity.
Qed.

Lemma Vec3d_sub_self (p : Vec3d) : finite3 p = true -> Vec3d.sub p p = Vec3d.zero.
Proof.
  unfold finite3. intros [[Hx Hy]%andb_prop Hz]%andb_prop.
  unfold Vec3d.sub, Vec3d.zero. by rewrite !sub_self.
Qed.

Lemma Vec3d_scale_div_zero (a : double) :
  Vec3d.scale (a / 0)%float Vec3d.zero = Vec3d_nan.
Proof. unfold Vec3d.scale, Vec3d_nan. cbn. by rewrite !div_zero_mul_zero. Qed.

Lemma Vec3d_add_nan3 (v : Vec3d) : Vec3d.add v Vec3d_nan = Vec3d_nan.
Proof. unfold Vec3d.add, Vec3d_nan. cbn. by rewrite !add_nan. Qed.

Lemma Vec3d_sub_nan3 (v : Vec3d) : Vec3d.sub v Vec3d_nan = Vec3d_nan.
Proof. unfold Vec3d.sub, Vec3d_nan. cbn. by rewrite !sub_nan. Qed.

End MoreBinary64.

Section Coincidence.

Variable exp : double -> double.
Variable pow : double -> double -> double.
Variable acos : double -> double.
Variable sin : double -> double.
Variable atan : double -> double.
Variable TOLERANCE : double.
Variable interpolate : ForceGrid -> Vec3d -> Vec3d * double.

Local Abbreviation eval := (eval exp pow acos sin atan TOLERANCE interpolate).
Local Abbreviation pair_e_f := (pair_e_f exp pow TOLERANCE).

(** At zero separation the four unguarded pair kernels compute the force as
    a quotient by [+0] times the zero vector. *)
Lemma unguarded_pair_force_at_coincidence k i1 i2 p e f :
  unguarded_pair k = Some (i1, i2) ->
  finite3 p = true ->
  pair_e_f k p p = Some (e, f) ->
  f = Vec3d_nan.
Proof.
  intros Hk Hfin Hef.
  destruct k; try discriminate; cbn in Hef; injection Hef as _ <-.
  - unfold LJ_e_f. cbv zeta. rewrite (Vec3d_sub_self p Hfin).
    change (Vec3d.lensqr Vec3d.zero) with 0%float. apply Vec3d_scale_div_zero.
  - unfold Morse_e_f. cbv zeta. rewrite (Vec3d_sub_self p Hfin).
    change (Vec3d.len Vec3d.zero) with 0%float. apply Vec3d_scale_div_zero.
  - unfold Coulomb_e_f. cbv zeta. rewrite (Vec3d_sub_self p Hfin).
    change (Vec3d.len Vec3d.zero) with 0%float.
    change (0 * 0 * 0)%float with 0%float. apply Vec3d_scale_div_zero.
  - unfold Harmonic_e_f. cbv zeta. rewrite (Vec3d_sub_self p Hfin).
    change (Vec3d.len Vec3d.zero) with 0%float. apply Vec3d_scale_div_zero.
Qed.

(** X4. Lennard-Jones, Morse, Coulomb and the harmonic bond have no guard:
    when their two (distinct) participants sit at one and the same finite
    position, a call that returns leaves NaN in all three components of both
    participants' forces, whatever the parameters and whatever the forces
    were. *)
Theorem unguarded_pair_kernels_nan_at_coincidence
    k i1 i2 positions p forces energies forces' energies' :
  unguarded_pair k = Some (i1, i2) ->
  i1 <> i2 ->
  positions !! i1 = Some p -> positions !! i2 = Some p ->
  finite3 p = true ->
  eval k positions forces energies = Some (forces', energies') ->
  forces' !! i1 = Some Vec3d_nan /\ forces' !! i2 = Some Vec3d_nan.
Proof.
  intros Hk Hne Hp1 Hp2 Hfin Hev.
  assert (Htwo : two_body k = Some (i1, i2)) by (by destruct k).
  destruct (two_body_eval_distinct exp pow acos sin atan TOLERANCE interpolate
              _ _ _ _ _ _ _ _ Htwo Hne Hev)
    as (q1 & q2 & e & f & e1 & e2 & f1 & f2 & Hq1 & Hq2 & Hef & _ & _ & _ & _
        & Hf1 & Hf2 & Hf1' & Hf2').
  rewrite Hp1 in Hq1. rewrite Hp2 in Hq2. injection Hq1 as <-. injection Hq2 as <-.
  rewrite (unguarded_pair_force_at_coincidence _ _ _ _ _ _ Hk Hfin Hef) in Hf1', Hf2'.
  by rewrite Vec3d_add_nan3 in Hf1'; rewrite Vec3d_sub_nan3 in Hf2'.
Qed.

End Coincidence.

(** ** Many-body kernels and planar restraints *)

Section ManyBody.

Variable exp : double -> double.
Variable pow : double -> double -> double.
Variable acos : double -> double.
Variable sin : double -> double.
Variable atan : double -> double.
Variable TOLERANCE : double.
Variable interpolate : ForceGrid -> Vec3d -> Vec3d * double.

Local Abbreviation eval := (eval exp pow acos sin atan TOLERANCE interpolate).

(** Reads an entry of an array that went through updates at other indices. *)
Ltac read_through :=
  repeat match goal with
  | H : <[?i := _]> _ !! ?j = Some _ |- _ =>
      rewrite list_lookup_insert_ne in H by done
  end;
  repeat match goal with
  | H : ?l !! ?i = Some _ |- _ =>
      lazymatch goal with
      | _ : i < length l |- _ => fail
      | _ => assert (i < length l) by (by eapply lookup_lt_Some)
      end
  end.

Ltac read_updated :=
  repeat first
    [ rewrite list_lookup_insert_eq by (by rewrite ?length_insert)
    | rewrite list_lookup_insert_ne by done ].

(** X5. The harmonic angle kernel on three distinct particles: a call that
    returns adds [f1] to the force of the first end, [f2] to the force of the
    second end, subtracts their sum [f1 + f2] from the force of the shared
    particle, and adds the whole energy [e] to each of the three energies. *)
Theorem harmonic_angle_accumulation
    i1 i2 shared k_ theta0_ positions forces energies forces' energies' :
  i1 <> i2 -> i1 <> shared -> i2 <> shared ->
  eval (HarmonicAngleInteraction i1 i2 shared k_ theta0_) positions forces energies
    = Some (forces', energies') ->
  exists p1 p2 ps e f1 f2 F1 F2 Fs E1 E2 Es,
    positions !! i1 = Some p1 /\ positions !! i2 = Some p2 /\
    positions !! shared = Some ps /\
    HarmonicAngle_e_f pow acos sin k_ theta0_ p1 p2 ps = (e, f1, f2) /\
    forces !! i1 = Some F1 /\ forces !! i2 = Some F2 /\ forces !! shared = Some Fs /\
    energies !! i1 = Some E1 /\ energies !! i2 = Some E2 /\ energies !! shared = Some Es /\
    forces' !! i1 = Some (Vec3d.add F1 f1) /\
    forces' !! i2 = Some (Vec3d.add F2 f2) /\
    forces' !! shared = Some (Vec3d.sub Fs (Vec3d.add f1 f2)) /\
    energies' !! i1 = Some (E1 + e)%float /\
    energies' !! i2 = Some (E2 + e)%float /\
    energies' !! shared = Some (Es + e)%float.
Proof.
  intros H12 H1s H2s Hev. cbn in Hev.
  destruct (positions !! i1) as [p1|] eqn:Hp1; cbn in Hev; [|discriminate].
  destruct (positions !! shared) as [ps|] eqn:Hps; cbn in Hev; [|discriminate].
  destruct (positions !! i2) as [p2|] eqn:Hp2; cbn in Hev; [|discriminate].
  destruct (HarmonicAngle_e_f pow acos sin k_ theta0_ p1 p2 ps) as [[e f1] f2] eqn:Hef.
  split_updates. read_through.
  exists p1, p2, ps, e, f1, f2. do 6 eexists.
  repeat (split; [eassumption || reflexivity|]).
  read_updated. done.
Qed.

(** X6. The harmonic dihedral kernel on four distinct particles: a call that
    returns adds [f1], [f2], [f3], [f4] to the forces of its four
    participants in this order and the whole energy [e] to each of the four
    energies. *)
Theorem harmonic_dihedral_accumulation
    i1 i2 i3 i4 k_ sigma0_ positions forces energies forces' energies' :
  i1 <> i2 -> i1 <> i3 -> i1 <> i4 -> i2 <> i3 -> i2 <> i4 -> i3 <> i4 ->
  eval (HarmonicDihedralInteraction i1 i2 i3 i4 k_ sigma0_) positions forces energies
    = Some (forces', energies') ->
  exists p1 p2 p3 p4 e f1 f2 f3 f4,
    positions !! i1 = Some p1 /\ positions !! i2 = Some p2 /\
    positions !! i3 = Some p3 /\ positions !! i4 = Some p4 /\
    HarmonicDihedral_e_f pow atan k_ sigma0_ p1 p2 p3 p4 = (e, f1, f2, f3, f4) /\
    (exists F1, forces !! i1 = Some F1 /\ forces' !! i1 = Some (Vec3d.add F1 f1)) /\
    (exists F2, forces !! i2 = Some F2 /\ forces' !! i2 = Some (Vec3d.add F2 f2)) /\
    (exists F3, forces !! i3 = Some F3 /\ forces' !! i3 = Some (Vec3d.add F3 f3)) /\
    (exists F4, forces !! i4 = Some F4 /\ forces' !! i4 = Some (Vec3d.add F4 f4)) /\
    (forall i, i ∈ [i1; i2; i3; i4] ->
       exists E0, energies !! i = Some E0 /\ energies' !! i = Some (E0 + e)%float).
Proof.
  intros H12 H13 H14 H23 H24 H34 Hev. cbn in Hev.
  destruct (positions !! i1) as [p1|] eqn:Hp1; cbn in Hev; [|discriminate].
  destruct (positions !! i2) as [p2|] eqn:Hp2; cbn in Hev; [|discriminate].
  destruct (positions !! i3) as [p3|] eqn:Hp3; cbn in Hev; [|discriminate].
  destruct (positions !! i4) as [p4|] eqn:Hp4; cbn in Hev; [|discriminate].
  destruct (HarmonicDihedral_e_f pow atan k_ sigma0_ p1 p2 p3 p4)
    as [[[[e f1] f2] f3] f4] eqn:Hef.
  split_updates. read_through.
  exists p1, p2, p3, p4, e, f1, f2, f3, f4.
  repeat (split; [eassumption || reflexivity|]).
  repeat split.
  1-4: eexists; split; [eassumption|]; by read_updated.
  intros i Hi. repeat (apply elem_of_cons in Hi as [->|Hi]).
  1-4: eexists; split; [eassumption|]; by read_updated.
  by apply elem_of_nil in Hi.
Qed.

End ManyBody.

Section Restraints.

Variable exp : double -> double.
Variable pow : double -> double -> double.
Variable acos : double -> double.
Variable sin : double -> double.
Variable atan : double -> double.
Variable TOLERANCE : double.
Variable interpolate : ForceGrid -> Vec3d -> Vec3d * double.

Local Abbreviation eval := (eval exp pow acos sin atan TOLERANCE interpolate).

Lemma TipHarmonic_force_z k_ r0_ p1 p2 :
  Vec3d.z (TipHarmonic_e_f TOLERANCE k_ r0_ p1 p2).2 = 0%float.
Proof. unfold TipHarmonic_e_f. cbn. by destruct (TOLERANCE <? _)%float. Qed.

Lemma XYHarmonic_force_z k_ p0_ p :
  Vec3d.z (XYHarmonic_e_f TOLERANCE k_ p0_ p).2 = 0%float.
Proof. unfold XYHarmonic_e_f. cbn. by destruct (TOLERANCE <? _)%float. Qed.

(** X7. The two planar restraints act in the plane only, on either side of
    their tolerance test: a call that returns adds [0] to the z component of
    the force of the first (or only) participant, and the tip restraint
    subtracts [0] from the z component of the force of its second one. *)
Theorem planar_restraints_add_zero_along_z :
  (forall i1 i2 k_ r0_ positions forces energies forces' energies',
      i1 <> i2 ->
      eval (TipHarmonicInteraction i1 i2 k_ r0_) positions forces energies
        = Some (forces', energies') ->
      exists old1 old2 new1 new2,
        forces !! i1 = Some old1 /\ forces !! i2 = Some old2 /\
        forces' !! i1 = Some new1 /\ forces' !! i2 = Some new2 /\
        Vec3d.z new1 = (Vec3d.z old1 + 0)%float /\
        Vec3d.z new2 = (Vec3d.z old2 - 0)%float)
  /\
  (forall i k_ p0_ positions forces energies forces' energies',
      eval (XYHarmonicInteraction i k_ p0_) positions forces energies
        = Some (forces', energies') ->
      exists old new,
        forces !! i = Some old /\ forces' !! i = Some new /\
        Vec3d.z new = (Vec3d.z old + 0)%float).
Proof.
  split.
  - intros i1 i2 k_ r0_ positions forces energies forces' energies' Hne Hev.
    destruct (two_body_eval_distinct exp pow acos sin atan TOLERANCE interpolate
                (TipHarmonicInteraction i1 i2 k_ r0_) i1 i2 _ _ _ _ _ eq_refl Hne Hev)
      as (p1 & p2 & e & f & e1 & e2 & f1 & f2 & _ & _ & Hef & _ & _ & _ & _
          & Hf1 & Hf2 & Hf1' & Hf2').
    cbn in Hef.
    assert (TipHarmonic_e_f TOLERANCE k_ r0_ p1 p2 = (e, f)) as Hef' by congruence.
    clear Hef. rename Hef' into Hef.
    pose proof (TipHarmonic_force_z k_ r0_ p1 p2) as Hz. rewrite Hef in Hz. cbn in Hz.
    do 4 eexists. repeat (split; [eassumption|]).
    cbn. by rewrite Hz.
  - intros i k_ p0_ positions forces energies forces' energies' Hev.
    cbn in Hev.
    destruct (positions !! i) as [p|] eqn:Hp; cbn in Hev; [|discriminate].
    pose proof (XYHarmonic_force_z k_ p0_ p) as Hz.
    destruct (XYHarmonic_e_f TOLERANCE k_ p0_ p) as [e f]. cbn in Hz.
    split_updates.
    do 2 eexists. split; [eassumption|].
    split; [apply list_lookup_insert_eq; by eapply lookup_lt_Some|].
    cbn. by rewrite Hz.
Qed.

(** X8. Whatever the three positions, the argument that the harmonic angle
    kernel hands to [acos] is neither above 1 nor below -1 (it is NaN when
    the cosine ratio is). *)
Theorem harmonic_angle_acos_argument_in_range p1 p2 ps :
  HarmonicAngle_theta acos p1 p2 ps
    = acos (clamp_cos (HarmonicAngle_cos_ratio p1 p2 ps)) /\
  (1 <? clamp_cos (HarmonicAngle_cos_ratio p1 p2 ps))%float = false /\
  (clamp_cos (HarmonicAngle_cos_ratio p1 p2 ps) <? -1)%float = false.
Proof.
  split; [reflexivity|].
  generalize (HarmonicAngle_cos_ratio p1 p2 ps). intros c.
  unfold clamp_cos.
  destruct (1 <? c)%float eqn:Habove; [split; reflexivity|].
  destruct (c <? -1)%float eqn:Hbelow; [split; reflexivity|].
  done.
Qed.

End Restraints.

(** ** The lattice builder *)

Section Cells.
Variable toIndex : Vec3i -> nat -> nat -> nat -> nat.

Section Replace.
Context {T : Type}.
Variable n : Vec3i.
Variable val : nat -> nat -> nat -> T -> T -> Prop.
Variable body : nat -> nat -> nat -> DataGrid T -> option (DataGrid T).
Variable g0 : DataGrid T.
Hypothesis apart : addresses_apart toIndex (n_grid g0) n.
Hypothesis body_replaces : forall ix iy iz t t',
  ix < Vec3i.x n -> iy < Vec3i.y n -> iz < Vec3i.z n ->
  body ix iy iz t = Some t' ->
  exists old new,
    at_ toIndex t ix iy iz = Some old /\ val ix iy iz old new /\
    set_at toIndex t ix iy iz new = Some t'.

Local Abbreviation updated := (updated toIndex n val g0).

Lemma updated_step seen ix iy iz t t' :
  ix < Vec3i.x n -> iy < Vec3i.y n -> iz < Vec3i.z n ->
  ~ seen ix iy iz ->
  updated seen t -> body ix iy iz t = Some t' ->
  updated (fun a b c => seen a b c \/ (a = ix /\ b = iy /\ c = iz)) t'.
Proof.
  intros Hx Hy Hz Hnew (Hn & Hsp & Hor & Hlen & Hnodes) Hb.
  destruct (body_replaces _ _ _ _ _ Hx Hy Hz Hb) as (old & new & Hold & Hval & Hset).
  unfold set_at in Hset.
  destruct (write (toIndex (n_grid t) ix iy iz) new (values t)) as [vs|] eqn:Hw;
    cbn in Hset; [|discriminate].
  injection Hset as <-. apply write_Some in Hw as [Hlt ->].
  split; [done|]. split; [done|]. split; [done|].
  split; [cbn; by rewrite length_insert|].
  intros a b c Ha Hb' Hc.
  destruct (decide (a = ix /\ b = iy /\ c = iz)) as [(-> & -> & ->)|Hother].
  - split; [|intros Hns; exfalso; apply Hns; by right].
    intros _. exists old, new.
    rewrite <- (proj2 (Hnodes ix iy iz Hx Hy Hz) Hnew).
    split; [done|]. split; [done|].
    unfold at_. cbn. by rewrite list_lookup_insert_eq.
  - assert (toIndex (n_grid t) ix iy iz <> toIndex (n_grid t) a b c) as Hdiff.
    { rewrite Hn. intros Heq. apply Hother. symmetry in Heq. by apply apart in Heq. }
    destruct (Hnodes a b c Ha Hb' Hc) as [Hseen Hunseen]. split.
    + intros [Hs|Hs]; [|done].
      destruct (Hseen Hs) as (o & w & Ho & Hw & Hat). exists o, w.
      split; [done|]. split; [done|].
      unfold at_ in *. cbn. by rewrite list_lookup_insert_ne.
    + intros Hns. rewrite <- Hunseen by (intros Hs; apply Hns; by left).
      unfold at_. cbn. by rewrite list_lookup_insert_ne.
Qed.

Lemma updated_weaken (seen seen' : nat -> nat -> nat -> Prop) t :
  (forall a b c, a < Vec3i.x n -> b < Vec3i.y n -> c < Vec3i.z n ->
     (seen' a b c <-> seen a b c)) ->
  updated seen t -> updated seen' t.
Proof.
  intros Hiff (Hn & Hsp & Hor & Hlen & Hnodes).
  repeat (split; [done|]). intros a b c Ha Hb Hc.
  destruct (Hnodes a b c Ha Hb Hc) as [Hseen Hunseen].
  pose proof (Hiff a b c Ha Hb Hc) as Habc. split.
  - intros Hs. apply Hseen. by apply Habc.
  - intros Hns. apply Hunseen. intros Hs. apply Hns. by apply Habc.
Qed.

Lemma for_nodes_updated g' :
  for_nodes n body g0 = Some g' ->
  n_grid g' = n_grid g0 /\ spacing g' = spacing g0 /\ origin g' = origin g0 /\
  length (values g') = length (values g0) /\
  forall a b c, a < Vec3i.x n -> b < Vec3i.y n -> c < Vec3i.z n ->
    exists old new, at_ toIndex g0 a b c = Some old /\ val a b c old new /\
                    at_ toIndex g' a b c = Some new.
Proof.
  unfold for_nodes. intros Hrun.
  apply (for_range_ind (fun ix t => updated (passed ix 0 0) t)) in Hrun.
  - destruct Hrun as (Hn & Hsp & Hor & Hlen & Hall). repeat (split; [done|]).
    intros a b c Ha Hb Hc. apply (Hall a b c Ha Hb Hc). left. cbn. lia.
  - repeat (split; [done|]). intros a b c _ _ _. split; [|done].
    unfold passed. lia.
  - intros ix t t' [_ Hix] Ht Hmid. cbn in Hix.
    apply (for_range_ind (fun iy u => updated (passed ix iy 0) u)) in Hmid.
    + eapply updated_weaken; [|exact Hmid].
      unfold passed. cbn. intros a b c Ha Hb Hc. lia.
    + done.
    + intros iy u u' [_ Hiy] Hu Hin. cbn in Hiy.
      apply (for_range_ind (fun iz w => updated (passed ix iy iz) w)) in Hin.
      * eapply updated_weaken; [|exact Hin].
        unfold passed. cbn. intros a b c Ha Hb Hc. lia.
      * done.
      * intros iz w w' [_ Hiz] Hw Hb. cbn in Hiz.
        eapply updated_weaken;
          [|refine (updated_step _ _ _ _ _ _ Hix Hiy Hiz _ Hw Hb)].
        -- unfold passed. cbn. intros a b c Ha Hb' Hc. lia.
        -- unfold passed. lia.
Qed.
End Replace.
End Cells.

Section BuilderProperties.
Variable PI : double.
Variable toIndex : Vec3i -> nat -> nat -> nat -> nat.
Variable fft_data_grid : DataGrid double -> DataGrid dcomplex.
Variable ffti_data_grid : DataGrid dcomplex -> DataGrid double -> DataGrid double.
Variable empty_grid : DataGrid double.

(** X9. The product loop of the builder (source lines 110 to 117), when it
    returns: the energy spectrum keeps the shape, spacing, origin and size of
    the potential spectrum, and at every node it holds the potential spectrum
    there times the charge spectrum there scaled by the cell volume
    [spacing.x*spacing.y*spacing.z]. *)
Theorem energy_spectrum_nodes n sp (pot_kspace rho_kspace energy_kspace : DataGrid dcomplex) :
  addresses_apart toIndex (n_grid pot_kspace) n ->
  energy_spectrum toIndex n sp pot_kspace rho_kspace = Some energy_kspace ->
  n_grid energy_kspace = n_grid pot_kspace /\
  spacing energy_kspace = spacing pot_kspace /\
  origin energy_kspace = origin pot_kspace /\
  length (values energy_kspace) = length (values pot_kspace) /\
  forall ix iy iz, ix < Vec3i.x n -> iy < Vec3i.y n -> iz < Vec3i.z n ->
    exists p r,
      at_ toIndex pot_kspace ix iy iz = Some p /\
      at_ toIndex rho_kspace ix iy iz = Some r /\
      at_ toIndex energy_kspace ix iy iz
        = Some (dcomplex.mul p
                  (dcomplex.scale (Vec3d.x sp * Vec3d.y sp * Vec3d.z sp)%float r)).
Proof.
  intros Hapart Hrun. unfold energy_spectrum in Hrun.
  apply (for_nodes_updated toIndex n
           (fun ix iy iz old new => exists r,
              at_ toIndex rho_kspace ix iy iz = Some r /\
              new = dcomplex.mul old
                      (dcomplex.scale (Vec3d.x sp * Vec3d.y sp * Vec3d.z sp)%float r)))
    in Hrun; [|done|].
  - destruct Hrun as (Hn & Hsp & Hor & Hlen & Hall). repeat (split; [done|]).
    intros ix iy iz Hx Hy Hz.
    destruct (Hall ix iy iz Hx Hy Hz) as (old & new & Hold & (r & Hr & ->) & Hnew).
    eauto.
  - intros ix iy iz t t' _ _ _ Hb.
    destruct (at_ toIndex t ix iy iz) as [p|] eqn:Hp; cbn in Hb; [|discriminate].
    destruct (at_ toIndex rho_kspace ix iy iz) as [r|] eqn:Hr; cbn in Hb; [|discriminate].
    exists p. eexists. split; [done|]. split; [|exact Hb]. eauto.
Qed.

(** X10. The wavenumber loop (source lines 137 to 154) never grows its
    vector: with [sk] the reciprocal spacing, the size is still 0 after it,
    so every entry it has stored, and every entry the force loops read, lies
    outside the vector in the block of [n] cells that [reserve] set aside.
    There cell [i] holds [i*sk] below the truncated half [int(n/2)] and
    [i*sk - n*sk] from there on; a subscript from [n] on is outside the
    block. In particular the only wavenumber of a one-node axis is
    [0*sk - 1*sk], not [0*sk]. *)
Theorem k_points_values n sk :
  exists k,
    k_points n sk = Some k /\
    vector.size k = 0 /\ length (vector.cells k) = n /\
    (forall i, i < n / 2 -> k !! i = Some (of_int i * sk)%float) /\
    (forall i, n / 2 <= i -> i < n ->
       k !! i = Some (of_int i * sk - of_int n * sk)%float) /\
    (forall i, n <= i -> k !! i = None) /\
    (n = 1 -> vector.cells k = [Some (of_int 0 * sk - of_int 1 * sk)%float]).
Proof.
  destruct (k_points_lookup n sk) as (k & Hk & Hsize & Hlen & Hall).
  exists k. do 3 (split; [done|]). split; [|split; [|split]].
  - intros i Hi. rewrite Hall, wavenumber_low; [done|done|].
    pose proof (Nat.div_mod_eq n 2). lia.
  - intros i Hlow Hi. by rewrite Hall, wavenumber_high.
  - intros i Hi. apply vector_lookup_outside. lia.
  - intros ->. specialize (Hall 0 ltac:(lia)).
    rewrite vector_lookup_cells in Hall.
    destruct (vector.cells k) as [|c0 [|c1 cs]]; try discriminate.
    cbn in Hall. by subst c0.
Qed.

(** X11. What the constructor hands over when it returns (source lines 57
    to 59, 133 and 192 to 198): a periodic force grid with the shape, spacing
    and origin of the potential, one force per node, and as energies the
    inverse transform of the energy spectrum, written into the charge
    lattice. *)
Theorem build_force_grid_shape e_potential rho_tip fg :
  build_force_grid PI toIndex fft_data_grid ffti_data_grid empty_grid e_potential rho_tip
    = Some fg ->
  grid_points_ fg = n_grid e_potential /\
  spacing_ fg = spacing e_potential /\
  offset_ fg = origin e_potential /\
  periodic_ fg = true /\
  length (forces_ fg)
    = Vec3i.x (n_grid e_potential) * Vec3i.y (n_grid e_potential)
      * Vec3i.z (n_grid e_potential) /\
  exists energy_kspace,
    energy_spectrum toIndex (n_grid e_potential) (spacing e_potential)
      (fft_data_grid e_potential) (fft_data_grid rho_tip) = Some energy_kspace /\
    energies_ fg
      = values (ffti_data_grid energy_kspace (setOrigin rho_tip (origin e_potential))).
Proof.
  intros Hbuild. unfold build_force_grid in Hbuild.
  destruct (energy_spectrum toIndex _ _ _ _) as [E|] eqn:HE; cbn in Hbuild; [|discriminate].
  destruct (force_fields _ _ _ _ _ _ _ _ _) as [force|] eqn:Hff;
    cbn in Hbuild; [|discriminate].
  injection Hbuild as <-. cbn. repeat (split; [done|]).
  split; [|eauto].
  unfold force_fields in Hff.
  repeat match type of Hff with
  | (?m ≫= _) = Some _ =>
      let E := fresh "Hstep" in
      destruct m eqn:E; cbn in Hff; [|discriminate Hff]
  end.
  injection Hff as <-.
  repeat match goal with
  | H : store_component _ _ _ _ = Some _ |- _ =>
      apply store_component_values in H as (H & _ & _)
  end.
  cbn in *. rewrite length_replicate in *. congruence.
Qed.

End BuilderProperties.

Section CutoffProperties.
Variable exp : double -> double.
Variable pow : double -> double -> double.

Lemma first_hit_spec test count : forall first preset,
  first + count <= preset ->
  let c := first_hit test first count preset in
  (c = preset \/ (first <= c < first + count /\ test c = true)) /\
  (forall i, first <= i -> i < c -> i < first + count -> test i = false).
Proof.
  induction count as [|count IH]; intros first preset Hle; cbn.
  - split; [by left|]. intros i H1 H2 H3. lia.
  - destruct (test first) eqn:Ht.
    + split; [right; split; [lia|done]|]. intros i H1 H2 H3. lia.
    + destruct (IH (Datatypes.S first) preset ltac:(lia)) as [Hc Hbefore]. split.
      * destruct Hc as [Hc|[Hc Hc']]; [by left|right; split; [lia|done]].
      * intros i H1 H2 H3. destruct (decide (i = first)) as [->|Hne]; [done|].
        apply Hbefore; lia.
Qed.

(** X12. The cutoff distance of the Gaussian (source lines 66 to 77), with
    [n_min] the smallest lattice size: it is either [n_min] itself, when the
    Gaussian is not negligible at any of the nodes [0 .. n_min - 2], or the
    first of these nodes where it is; so it never exceeds [n_min] and is
    never [n_min - 1]. *)
Theorem cutoff_dist_first_negligible (n : Vec3i) (sp : Vec3d) (gaussian_width : double) :
  let n_min := Nat.min (Nat.min (Vec3i.x n) (Vec3i.y n)) (Vec3i.z n) in
  let negligible := gaussian_negligible exp pow (Vec3d.x sp) (pow gaussian_width 2) in
  let c := cutoff_dist exp pow n sp gaussian_width in
  (c = n_min \/ (c + 1 < n_min /\ negligible c = true)) /\
  (forall i, i < c -> i + 1 < n_min -> negligible i = false) /\
  c <= n_min /\ c + 1 <> n_min.
Proof.
  intros n_min negligible c.
  pose proof (first_hit_spec negligible (n_min - 1) 0 n_min ltac:(lia)) as Hspec.
  cbv zeta in Hspec.
  change (first_hit negligible 0 (n_min - 1) n_min) with c in Hspec.
  destruct Hspec as [Hc Hbefore].
  assert (Hc' : c = n_min \/ (c + 1 < n_min /\ negligible c = true)).
  { destruct Hc as [Hc|[Hc Ht]]; [by left|right; split; [lia|done]]. }
  split; [done|]. split.
  - intros i Hi Hn. apply Hbefore; lia.
  - destruct Hc' as [Hc'|[Hlt _]]; lia.
Qed.

End CutoffProperties.

(** ** The Gaussian loops *)

Section Frames.
Variable toIndex : Vec3i -> nat -> nat -> nat -> nat.
Context {T : Type}.
Variable n : Vec3i.
Variable body : nat -> nat -> nat -> DataGrid T -> option (DataGrid T).
Variable g0 : DataGrid T.
Hypothesis body_writes : forall ix iy iz t t',
  ix < Vec3i.x n -> iy < Vec3i.y n -> iz < Vec3i.z n ->
  body ix iy iz t = Some t' ->
  exists a, set_at toIndex t ix iy iz a = Some t'.

(** A triple loop of node writes keeps the shape of the lattice and every
    place that is not the address of one of its nodes. *)
Lemma for_nodes_frame g' :
  for_nodes n body g0 = Some g' ->
  n_grid g' = n_grid g0 /\ spacing g' = spacing g0 /\ origin g' = origin g0 /\
  length (values g') = length (values g0) /\
  forall j,
    (forall a b c, a < Vec3i.x n -> b < Vec3i.y n -> c < Vec3i.z n ->
       toIndex (n_grid g0) a b c <> j) ->
    values g' !! j = values g0 !! j.
Proof.
  set (kept := fun t : DataGrid T =>
    n_grid t = n_grid g0 /\ spacing t = spacing g0 /\ origin t = origin g0 /\
    length (values t) = length (values g0) /\
    forall j,
      (forall a b c, a < Vec3i.x n -> b < Vec3i.y n -> c < Vec3i.z n ->
         toIndex (n_grid g0) a b c <> j) ->
      values t !! j = values g0 !! j).
  assert (Hstep : forall ix iy iz t t',
             ix < Vec3i.x n -> iy < Vec3i.y n -> iz < Vec3i.z n ->
             kept t -> body ix iy iz t = Some t' -> kept t').
  { intros ix iy iz t t' Hx Hy Hz (Hn & Hsp & Hor & Hlen & Hout) Hb.
    destruct (body_writes _ _ _ _ _ Hx Hy Hz Hb) as (v & Hset).
    unfold set_at in Hset.
    destruct (write (toIndex (n_grid t) ix iy iz) v (values t)) as [vs|] eqn:Hw;
      cbn in Hset; [|discriminate].
    injection Hset as <-. apply write_Some in Hw as [Hlt ->].
    unfold kept. cbn. rewrite length_insert. repeat (split; [done|]).
    intros j Hj. rewrite list_lookup_insert_ne; [by apply Hout|].
    rewrite Hn. by apply Hj. }
  unfold for_nodes. intros Hrun.
  apply (for_range_ind (fun _ t => kept t)) in Hrun; [exact Hrun|by unfold kept|].
  intros ix t t' [_ Hix] Ht Hmid. cbn in Hix.
  apply (for_range_ind (fun _ u => kept u)) in Hmid; [exact Hmid|done|].
  intros iy u u' [_ Hiy] Hu Hin. cbn in Hiy.
  apply (for_range_ind (fun _ w => kept w)) in Hin; [exact Hin|done|].
  intros iz w w' [_ Hiz] Hw Hb. cbn in Hiz. eapply Hstep; eauto.
Qed.
End Frames.

Section LoopInvariants.
Context {S : Type}.
Variable Inv : S -> Prop.

(** Two loop bodies that agree on the states of an invariant give the same
    loop from a state of the invariant. *)
Lemma for_range_agree (body body' : nat -> S -> option S) count :
  forall first s,
  Inv s ->
  (forall i t t', Inv t -> body i t = Some t' -> Inv t') ->
  (forall i t, Inv t -> body i t = body' i t) ->
  for_range first count body s = for_range first count body' s.
Proof.
  induction count as [|count IH]; intros first s Hs Hkeep Hsame; simpl; [done|].
  rewrite <- (Hsame first s Hs).
  destruct (body first s) as [t|] eqn:Hb; simpl; [|done].
  apply IH; eauto.
Qed.

Lemma for_range_keeps (body : nat -> S -> option S) count first s s' :
  Inv s ->
  (forall i t t', Inv t -> body i t = Some t' -> Inv t') ->
  for_range first count body s = Some s' -> Inv s'.
Proof.
  intros Hs Hkeep Hrun.
  apply (for_range_ind (fun _ t => Inv t)) in Hrun; eauto.
Qed.

Lemma for_nodes_agree n (body body' : nat -> nat -> nat -> S -> option S) s :
  Inv s ->
  (forall a b c t t', Inv t -> body a b c t = Some t' -> Inv t') ->
  (forall a b c t, Inv t -> body a b c t = body' a b c t) ->
  for_nodes n body s = for_nodes n body' s.
Proof.
  intros Hs Hkeep Hsame. unfold for_nodes.
  assert (Hin : forall a b t t', Inv t ->
            for_range 0 (Vec3i.z n) (fun iz u => body a b iz u) t = Some t' -> Inv t').
  { intros a b t t' Ht. apply for_range_keeps; eauto. }
  assert (Hmid : forall a t t', Inv t ->
            for_range 0 (Vec3i.y n) (fun iy u =>
              for_range 0 (Vec3i.z n) (fun iz w => body a iy iz w) u) t = Some t' -> Inv t').
  { intros a t t' Ht. apply for_range_keeps; eauto. }
  apply for_range_agree; [done|eauto|].
  intros a t Ht. apply for_range_agree; [done|eauto|].
  intros b u Hu. apply for_range_agree; [done|eauto|].
  intros c w Hw. by apply Hsame.
Qed.
End LoopInvariants.

Section GaussianProperties.
Variable exp : double -> double.
Variable pow : double -> double -> double.
Variable PI : double.
Variable toIndexPBC : Vec3i -> Z -> Z -> Z -> nat.
Variable positionAt : Vec3i -> Vec3d -> Vec3d -> Z -> Z -> Z -> Vec3d.

(** The periodic address of the node that the loops reach after [a], [b],
    [c] steps along x, y, z. *)
Let box_index (cutoff_dist : nat) (m : Vec3i) (a b c : nat) : nat :=
  toIndexPBC m (- Z.of_nat cutoff_dist + Z.of_nat a)
               (- Z.of_nat cutoff_dist + Z.of_nat b)
               (- Z.of_nat cutoff_dist + Z.of_nat c).

Let box_shape (cutoff_dist : nat) : Vec3i :=
  Vec3i.mk (2 * cutoff_dist + 1) (2 * cutoff_dist + 1) (2 * cutoff_dist).

Lemma fill_gaussian_for_nodes tip_charge gaussian_width cutoff_dist rho_tip :
  fill_gaussian exp pow PI toIndexPBC positionAt tip_charge gaussian_width cutoff_dist rho_tip
  = for_nodes (box_shape cutoff_dist)
      (fun a b c t =>
         set_at (box_index cutoff_dist) t a b c
           (gaussian_charge exp pow PI tip_charge gaussian_width
              (positionAt (n_grid t) (spacing t) (origin t)
                 (- Z.of_nat cutoff_dist + Z.of_nat a)
                 (- Z.of_nat cutoff_dist + Z.of_nat b)
                 (- Z.of_nat cutoff_dist + Z.of_nat c))))
      rho_tip.
Proof. reflexivity. Qed.

Lemma in_box_steps cutoff_dist ix iy iz :
  in_gaussian_box cutoff_dist ix iy iz ->
  exists a b c,
    a < 2 * cutoff_dist + 1 /\ b < 2 * cutoff_dist + 1 /\ c < 2 * cutoff_dist /\
    ix = (- Z.of_nat cutoff_dist + Z.of_nat a)%Z /\
    iy = (- Z.of_nat cutoff_dist + Z.of_nat b)%Z /\
    iz = (- Z.of_nat cutoff_dist + Z.of_nat c)%Z.
Proof.
  intros (Hx & Hy & Hz).
  exists (Z.to_nat (ix + Z.of_nat cutoff_dist)), (Z.to_nat (iy + Z.of_nat cutoff_dist)),
         (Z.to_nat (iz + Z.of_nat cutoff_dist)).
  repeat split; lia.
Qed.

(** X13. The Gaussian loops (source lines 79 to 87), when they return, keep
    the shape, spacing, origin and size of the charge lattice and change no
    place other than the periodic addresses of the nodes with
    [-cutoff <= ix <= cutoff], [-cutoff <= iy <= cutoff] and
    [-cutoff <= iz < cutoff]: along z the upper end [cutoff] is left out. *)
Theorem fill_gaussian_frame tip_charge gaussian_width cutoff_dist rho_tip rho_tip' :
  fill_gaussian exp pow PI toIndexPBC positionAt tip_charge gaussian_width cutoff_dist rho_tip
    = Some rho_tip' ->
  n_grid rho_tip' = n_grid rho_tip /\ spacing rho_tip' = spacing rho_tip /\
  origin rho_tip' = origin rho_tip /\
  length (values rho_tip') = length (values rho_tip) /\
  forall j,
    (forall ix iy iz, in_gaussian_box cutoff_dist ix iy iz ->
       toIndexPBC (n_grid rho_tip) ix iy iz <> j) ->
    values rho_tip' !! j = values rho_tip !! j.
Proof.
  rewrite fill_gaussian_for_nodes. intros Hrun.
  apply (for_nodes_frame (box_index cutoff_dist)) in Hrun.
  - destruct Hrun as (Hn & Hsp & Hor & Hlen & Hout). repeat (split; [done|]).
    intros j Hj. apply Hout. intros a b c Ha Hb Hc. cbn in Ha, Hb, Hc.
    apply Hj. unfold in_gaussian_box. lia.
  - intros a b c t t' _ _ _ Hb. eauto.
Qed.

(** X14. When the periodic addressing keeps the nodes of that box apart, the
    Gaussian loops leave at the address of each node of the box the tip
    charge times the normalised Gaussian of the squared distance of the
    node's position from the origin. *)
Theorem fill_gaussian_values tip_charge gaussian_width cutoff_dist rho_tip rho_tip' :
  (forall ix iy iz ix' iy' iz',
      in_gaussian_box cutoff_dist ix iy iz -> in_gaussian_box cutoff_dist ix' iy' iz' ->
      toIndexPBC (n_grid rho_tip) ix iy iz = toIndexPBC (n_grid rho_tip) ix' iy' iz' ->
      ix = ix' /\ iy = iy' /\ iz = iz') ->
  fill_gaussian exp pow PI toIndexPBC positionAt tip_charge gaussian_width cutoff_dist rho_tip
    = Some rho_tip' ->
  forall ix iy iz, in_gaussian_box cutoff_dist ix iy iz ->
    values rho_tip' !! toIndexPBC (n_grid rho_tip) ix iy iz
    = Some (gaussian_charge exp pow PI tip_charge gaussian_width
              (positionAt (n_grid rho_tip) (spacing rho_tip) (origin rho_tip) ix iy iz)).
Proof.
  intros Hapart. rewrite fill_gaussian_for_nodes. intros Hrun ix iy iz Hbox.
  rewrite (for_nodes_agree
             (fun t : DataGrid double =>
                n_grid t = n_grid rho_tip /\ spacing t = spacing rho_tip /\
                origin t = origin rho_tip)
             _ _
             (fun a b c t =>
                set_at (box_index cutoff_dist) t a b c
                  (gaussian_charge exp pow PI tip_charge gaussian_width
                     (positionAt (n_grid rho_tip) (spacing rho_tip) (origin rho_tip)
                        (- Z.of_nat cutoff_dist + Z.of_nat a)
                        (- Z.of_nat cutoff_dist + Z.of_nat b)
                        (- Z.of_nat cutoff_dist + Z.of_nat c))))) in Hrun.
  - apply (for_nodes_written (box_index cutoff_dist) (box_shape cutoff_dist)
             (fun a b c v =>
                v = gaussian_charge exp pow PI tip_charge gaussian_width
                      (positionAt (n_grid rho_tip) (spacing rho_tip) (origin rho_tip)
                         (- Z.of_nat cutoff_dist + Z.of_nat a)
                         (- Z.of_nat cutoff_dist + Z.of_nat b)
                         (- Z.of_nat cutoff_dist + Z.of_nat c)))) in Hrun.
    + destruct Hrun as [Hn Hall].
      destruct (in_box_steps _ _ _ _ Hbox) as (a & b & c & Ha & Hb & Hc & -> & -> & ->).
      destruct (Hall a b c Ha Hb Hc) as (v & -> & Hat).
      unfold at_, box_index in Hat. by rewrite Hn in Hat.
    + intros a b c a' b' c' Ha Hb Hc Ha' Hb' Hc' Heq. cbn in Ha, Hb, Hc, Ha', Hb', Hc'.
      unfold box_index in Heq.
      apply Hapart in Heq; [lia| |]; unfold in_gaussian_box; lia.
    + intros a b c t t' _ _ _ Hb. eauto.
  - done.
  - intros a b c t t' (Hn & Hsp & Hor) Hset. unfold set_at in Hset.
    destruct (write _ _ (values t)) as [vs|]; cbn in Hset; [|discriminate].
    by injection Hset as <-.
  - intros a b c t (-> & -> & ->). reflexivity.
Qed.

End GaussianProperties.

(** ** Closed examples *)

(** C1 fails as stated. The Coulomb kernel has no guard: for two particles at
    the same point the derived length [r] is 0, below the tolerance, the
    factor [qq_ / (r*r*r)] is infinite and its product with the zero
    separation vector is NaN, which is what both force accumulators hold
    after the call (instead of [0 + 0] and [0 - 0]). Lennard-Jones at the
    same positions does the same. *)
Lemma coulomb_coincident_particles_nan_force :
  (Vec3d.len (Vec3d.sub Sample.origin Sample.origin) <? Sample.TOLERANCE)%float = true /\
  Sample.eval (CoulombInteraction 0 1 1) Sample.coincident_pair
      Sample.forces0 Sample.energies0
    = Some ([Sample.nan3; Sample.nan3], [infinity; infinity]) /\
  Sample.eval (LJInteraction 0 1 1 1) Sample.coincident_pair
      Sample.forces0 Sample.energies0
    = Some ([Sample.nan3; Sample.nan3], [nan; nan]) /\
  Sample.nan3 <> Vec3d.add Vec3d.zero Vec3d.zero /\
  Sample.nan3 <> Vec3d.sub Vec3d.zero Vec3d.zero.
Proof. repeat split; vm_compute; (reflexivity || discriminate). Qed.

(** The tip restraint on a tip right above its anchor: in-plane length 0. *)
Lemma restraints_zero_force_below_tolerance_witness :
  (TipHarmonic_r (Vec3d.mk 0 0 1) Sample.origin <? Sample.TOLERANCE)%float = true /\
  exists f1 f2,
    Sample.forces0 !! 0%nat = Some f1 /\
    <[0%nat := Vec3d.add f1 Vec3d.zero]> Sample.forces0 !! 1%nat = Some f2 /\
    [Vec3d.zero; Vec3d.zero] =
      <[1%nat := Vec3d.sub f2 Vec3d.zero]>
        (<[0%nat := Vec3d.add f1 Vec3d.zero]> Sample.forces0).
Proof.
  split; [vm_compute; reflexivity|].
  apply (proj1 (restraints_zero_force_below_tolerance
                  Sample.unary Sample.binary Sample.acos Sample.unary Sample.unary
                  Sample.TOLERANCE Sample.interpolate)
           0%nat 1%nat 1%float 0%float Sample.stacked_pair
           (Vec3d.mk 0 0 1) Sample.origin Sample.forces0 Sample.energies0
           [Vec3d.zero; Vec3d.zero] [0%float; 0%float]);
    vm_compute; reflexivity.
Defined.

(** Coulomb with [qq_ = 1] on the unit pair: forces [(1,0,0)] and [(-1,0,0)]. *)
Lemma two_body_forces_antisymmetric_witness :
  two_body (CoulombInteraction 0 1 1) = Some (0%nat, 1%nat) /\
  Sample.eval (CoulombInteraction 0 1 1) Sample.unit_pair Sample.forces0 Sample.energies0
    = Some ([Vec3d.mk 1 0 0; Vec3d.mk (-1) 0 0], [1%float; 1%float]) /\
  exists p1 p2 e f old1 old2,
    Sample.unit_pair !! 0%nat = Some p1 /\ Sample.unit_pair !! 1%nat = Some p2 /\
    pair_e_f Sample.unary Sample.binary Sample.TOLERANCE
      (CoulombInteraction 0 1 1) p1 p2 = Some (e, f) /\
    Sample.forces0 !! 0%nat = Some old1 /\ Sample.forces0 !! 1%nat = Some old2 /\
    [Vec3d.mk 1 0 0; Vec3d.mk (-1) 0 0] !! 0%nat = Some (Vec3d.add old1 f) /\
    [Vec3d.mk 1 0 0; Vec3d.mk (-1) 0 0] !! 1%nat = Some (Vec3d.sub old2 f) /\
    Vec3d.sub old2 f = Vec3d.add old2 (Vec3d.opp f).
Proof.
  split; [reflexivity|]. split; [vm_compute; reflexivity|].
  apply (two_body_forces_antisymmetric
           Sample.unary Sample.binary Sample.acos Sample.unary Sample.unary
           Sample.TOLERANCE Sample.interpolate
           (CoulombInteraction 0 1 1) 0%nat 1%nat Sample.unit_pair
           Sample.forces0 Sample.energies0
           [Vec3d.mk 1 0 0; Vec3d.mk (-1) 0 0] [1%float; 1%float]).
  - reflexivity.
  - lia.
  - vm_compute; reflexivity.
Defined.

(** The tip restraint with [k_ = 1], [r0_ = 0.5] on the unit pair: each
    participant receives the whole [0.25]. *)
Lemma two_body_energy_added_to_both_witness :
  Sample.eval (TipHarmonicInteraction 0 1 1 0.5) Sample.unit_pair
      Sample.forces0 Sample.energies0
    = Some ([Vec3d.mk (-1) 0 0; Vec3d.mk 1 0 0], [0.25%float; 0.25%float]) /\
  exists p1 p2 e f old1 old2,
    Sample.unit_pair !! 0%nat = Some p1 /\ Sample.unit_pair !! 1%nat = Some p2 /\
    pair_e_f Sample.unary Sample.binary Sample.TOLERANCE
      (TipHarmonicInteraction 0 1 1 0.5) p1 p2 = Some (e, f) /\
    Sample.energies0 !! 0%nat = Some old1 /\ Sample.energies0 !! 1%nat = Some old2 /\
    [0.25%float; 0.25%float] !! 0%nat = Some (old1 + e)%float /\
    [0.25%float; 0.25%float] !! 1%nat = Some (old2 + e)%float.
Proof.
  split; [vm_compute; reflexivity|].
  apply (two_body_energy_added_to_both
           Sample.unary Sample.binary Sample.acos Sample.unary Sample.unary
           Sample.TOLERANCE Sample.interpolate
           (TipHarmonicInteraction 0 1 1 0.5) 0%nat 1%nat Sample.unit_pair
           Sample.forces0 Sample.energies0
           [Vec3d.mk (-1) 0 0; Vec3d.mk 1 0 0] [0.25%float; 0.25%float]).
  - reflexivity.
  - lia.
  - vm_compute; reflexivity.
Defined.

(** A grid kernel on a one-node lattice: only entry 1 changes. *)
Lemma grid_kernels_act_on_index_1_witness :
  Sample.eval (GridInteraction Sample.one_node) Sample.unit_pair
      Sample.forces0 Sample.energies0
    = Some ([Vec3d.zero; Vec3d.mk 1 2 3], [0%float; 5%float]) /\
  exists p f1 e1,
    Sample.unit_pair !! 1%nat = Some p /\
    Sample.forces0 !! 1%nat = Some f1 /\ Sample.energies0 !! 1%nat = Some e1 /\
    [Vec3d.zero; Vec3d.mk 1 2 3]
      = <[1%nat := Vec3d.add f1 (Sample.interpolate Sample.one_node p).1]> Sample.forces0 /\
    [0%float; 5%float]
      = <[1%nat := (e1 + (Sample.interpolate Sample.one_node p).2)%float]> Sample.energies0 /\
    (forall j, j <> 1%nat ->
       [Vec3d.zero; Vec3d.mk 1 2 3] !! j = Sample.forces0 !! j /\
       [0%float; 5%float] !! j = Sample.energies0 !! j) /\
    (forall positions2, positions2 !! 1%nat = Some p ->
       Sample.eval (GridInteraction Sample.one_node) positions2
         Sample.forces0 Sample.energies0
       = Some ([Vec3d.zero; Vec3d.mk 1 2 3], [0%float; 5%float])).
Proof.
  split; [vm_compute; reflexivity|].
  apply (grid_kernels_act_on_index_1
           Sample.unary Sample.binary Sample.acos Sample.unary Sample.unary
           Sample.TOLERANCE Sample.interpolate
           (GridInteraction Sample.one_node) Sample.one_node Sample.unit_pair
           Sample.forces0 Sample.energies0).
  - reflexivity.
  - vm_compute; reflexivity.
Defined.

(** The wall at height 1, inside its cutoff 2: z force [9 + 4032]. *)
Lemma substrate_wall_cutoff_and_frame_witness :
  Sample.eval Sample.wall [Vec3d.mk 0 0 1] [Vec3d.mk 7 8 9] [0%float]
    = Some ([Vec3d.mk 7 8 4041], [Sample.wall_energy]) /\
  exists p fold eold fnew,
    [Vec3d.mk 0 0 1] !! 0%nat = Some p /\
    [Vec3d.mk 7 8 9] !! 0%nat = Some fold /\ [0%float] !! 0%nat = Some eold /\
    [Vec3d.mk 7 8 4041] !! 0%nat = Some fnew /\
    ((2 <? Substrate_dz 0 p)%float = true ->
       Vec3d.z fnew = (Vec3d.z fold + 0)%float /\
       [Sample.wall_energy] !! 0%nat = Some (eold + 0)%float) /\
    ((Substrate_dz 0 p <=? 2)%float = true ->
       Vec3d.z fnew =
         (Vec3d.z fold + (0 + (Substrate_inner 2 1 0 0 (Substrate_dz 0 p)).2))%float /\
       [Sample.wall_energy] !! 0%nat =
         Some (eold + (0 + (Substrate_inner 2 1 0 0 (Substrate_dz 0 p)).1))%float) /\
    Vec3d.x fnew = Vec3d.x fold /\ Vec3d.y fnew = Vec3d.y fold /\
    (forall j, j <> 0%nat ->
       [Vec3d.mk 7 8 4041] !! j = [Vec3d.mk 7 8 9] !! j /\
       [Sample.wall_energy] !! j = [0%float] !! j).
Proof.
  split; [vm_compute; reflexivity|].
  apply (substrate_wall_cutoff_and_frame
           Sample.unary Sample.binary Sample.acos Sample.unary Sample.unary
           Sample.TOLERANCE Sample.interpolate
           0%nat 0%float 2%float 2%float 1%float 0%float 0%float
           [Vec3d.mk 0 0 1] [Vec3d.mk 7 8 9] [0%float]).
  vm_compute; reflexivity.
Defined.

(** Two parallel [(1,1,1)] bonds: the ratio [3 / (sqrt 3 * sqrt 3)] rounds to
    [1.0000000000000002]. *)
Lemma harmonic_angle_clamps_cosine_above_one_witness :
  Sample.acos 1%float = 0%float /\
  (1 <? HarmonicAngle_cos_ratio (Vec3d.mk 1 1 1) (Vec3d.mk 1 1 1) Sample.origin)%float
    = true /\
  clamp_cos (HarmonicAngle_cos_ratio (Vec3d.mk 1 1 1) (Vec3d.mk 1 1 1) Sample.origin)
    = 1%float /\
  HarmonicAngle_theta Sample.acos (Vec3d.mk 1 1 1) (Vec3d.mk 1 1 1) Sample.origin
    = 0%float /\
  (HarmonicAngle_e_f Sample.binary Sample.acos Sample.unary 1 0
     (Vec3d.mk 1 1 1) (Vec3d.mk 1 1 1) Sample.origin).1.1
    = (1 * Sample.binary (0 - 0) 2)%float /\
  (forall forces energies,
      0 < length forces -> 1 < length forces -> 2 < length forces ->
      0 < length energies -> 1 < length energies -> 2 < length energies ->
      is_Some (Sample.eval (HarmonicAngleInteraction 0 1 2 1 0)
                 Sample.folded_angle forces energies)).
Proof.
  split; [reflexivity|]. split; [vm_compute; reflexivity|].
  apply (harmonic_angle_clamps_cosine_above_one
           Sample.unary Sample.binary Sample.acos Sample.unary Sample.unary
           Sample.TOLERANCE Sample.interpolate
           0%nat 1%nat 2%nat 1%float 0%float Sample.folded_angle
           (Vec3d.mk 1 1 1) (Vec3d.mk 1 1 1) Sample.origin).
  - reflexivity.
  - reflexivity.
  - reflexivity.
  - reflexivity.
  - vm_compute; reflexivity.
Defined.

(** Lennard-Jones on the unit pair: energies 0, forces [(6,0,0)] and
    [(-6,0,0)]. *)
Lemma LJ_unit_separation_witness :
  Vec3d.lensqr (Vec3d.sub (Vec3d.mk 1 0 0) Sample.origin) = 1%float /\
  Sample.eval (LJInteraction 0 1 1 1) Sample.unit_pair Sample.forces0 Sample.energies0
    = Some ([Vec3d.mk 6 0 0; Vec3d.mk (-6) 0 0], [0%float; 0%float]) /\
  exists e1 e2 f1 f2,
    Sample.energies0 !! 0%nat = Some e1 /\ Sample.energies0 !! 1%nat = Some e2 /\
    Sample.forces0 !! 0%nat = Some f1 /\ Sample.forces0 !! 1%nat = Some f2 /\
    [0%float; 0%float] !! 0%nat = Some (e1 + 0)%float /\
    [0%float; 0%float] !! 1%nat = Some (e2 + 0)%float /\
    [Vec3d.mk 6 0 0; Vec3d.mk (-6) 0 0] !! 0%nat
      = Some (Vec3d.add f1 (Vec3d.scale 6 (Vec3d.sub (Vec3d.mk 1 0 0) Sample.origin))) /\
    [Vec3d.mk 6 0 0; Vec3d.mk (-6) 0 0] !! 1%nat
      = Some (Vec3d.sub f2 (Vec3d.scale 6 (Vec3d.sub (Vec3d.mk 1 0 0) Sample.origin))).
Proof.
  split; [vm_compute; reflexivity|]. split; [vm_compute; reflexivity|].
  apply (LJ_unit_separation
           Sample.unary Sample.binary Sample.acos Sample.unary Sample.unary
           Sample.TOLERANCE Sample.interpolate
           0%nat 1%nat Sample.unit_pair (Vec3d.mk 1 0 0) Sample.origin
           Sample.forces0 Sample.energies0
           [Vec3d.mk 6 0 0; Vec3d.mk (-6) 0 0] [0%float; 0%float]).
  - lia.
  - reflexivity.
  - reflexivity.
  - vm_compute; reflexivity.
  - vm_compute; reflexivity.
Defined.

(** C2 fails as stated. On the four-node sample the constructor stores the
    force [-π] along x at the first node, whereas the inverse transform of
    the energy spectrum multiplied by [i·2π·k] ([spec_multiplier]) has [+π]
    there: the code multiplies by [-i·2π·k], the force being minus the
    gradient of the energy. *)
Lemma force_sign_on_four_node_lattice :
  Sample4.build_force_grid Sample4.e_potential Sample4.rho_tip = Some Sample4.built /\
  energy_spectrum Sample4.toIndex Sample4.lattice (spacing Sample4.e_potential)
    (Sample4.fft_data_grid Sample4.e_potential) (Sample4.fft_data_grid Sample4.rho_tip)
    = Some Sample4.energy_kspace /\
  forces_ Sample4.built !! 0%nat = Some (Vec3d.mk (- Sample4.PI) 0 0) /\
  (exists kx Sx,
      k_points 4 (Vec3d.x (spacing Sample4.energy_kspace)) = Some kx /\
      fill_spectrum Sample4.toIndex (spec_multiplier Sample4.PI) AxisX Sample4.lattice
        kx Sample4.energy_kspace (Sample4.fft_data_grid Sample4.rho_tip) = Some Sx /\
      values (Sample4.ffti_data_grid Sx
                (setOrigin Sample4.empty_grid (origin Sample4.e_potential))) !! 0%nat
        = Some Sample4.PI) /\
  (- Sample4.PI)%float <> Sample4.PI.
Proof.
  split; [vm_compute; reflexivity|].
  split; [vm_compute; reflexivity|].
  split; [vm_compute; reflexivity|].
  split; [|vm_compute; discriminate].
  do 2 eexists. split; [vm_compute; reflexivity|].
  split; vm_compute; reflexivity.
Qed.

(** Row-major addressing keeps the four nodes of the sample apart. *)
Lemma sample4_addresses_apart :
  addresses_apart Sample4.toIndex
    (n_grid (Sample4.fft_data_grid Sample4.rho_tip)) (n_grid Sample4.e_potential).
Proof.
  intros a b c a' b' c'. unfold Sample4.toIndex. simpl. lia.
Defined.

(** The constructor on the four-node sample. *)
Lemma force_components_from_spectrum_witness :
  addresses_apart Sample4.toIndex
    (n_grid (Sample4.fft_data_grid Sample4.rho_tip)) (n_grid Sample4.e_potential) /\
  Sample4.build_force_grid Sample4.e_potential Sample4.rho_tip = Some Sample4.built /\
  exists energy_kspace kx ky kz Sx Sy Sz,
    energy_spectrum Sample4.toIndex Sample4.lattice (spacing Sample4.e_potential)
      (Sample4.fft_data_grid Sample4.e_potential) (Sample4.fft_data_grid Sample4.rho_tip)
      = Some energy_kspace /\
    k_points 4 (Vec3d.x (spacing energy_kspace)) = Some kx /\
    k_points 1 (Vec3d.y (spacing energy_kspace)) = Some ky /\
    k_points 1 (Vec3d.z (spacing energy_kspace)) = Some kz /\
    fill_spectrum Sample4.toIndex (force_multiplier Sample4.PI) AxisX Sample4.lattice kx
      energy_kspace (Sample4.fft_data_grid Sample4.rho_tip) = Some Sx /\
    fill_spectrum Sample4.toIndex (force_multiplier Sample4.PI) AxisY Sample4.lattice ky
      energy_kspace Sx = Some Sy /\
    fill_spectrum Sample4.toIndex (force_multiplier Sample4.PI) AxisZ Sample4.lattice kz
      energy_kspace Sy = Some Sz /\
    (forall ix iy iz, ix < 4 -> iy < 1 -> iz < 1 ->
        exists e k_x k_y k_z,
          at_ Sample4.toIndex energy_kspace ix iy iz = Some e /\
          kx !! ix = Some k_x /\ ky !! iy = Some k_y /\ kz !! iz = Some k_z /\
          at_ Sample4.toIndex Sx ix iy iz = Some (force_multiplier Sample4.PI k_x e) /\
          at_ Sample4.toIndex Sy ix iy iz = Some (force_multiplier Sample4.PI k_y e) /\
          at_ Sample4.toIndex Sz ix iy iz = Some (force_multiplier Sample4.PI k_z e)) /\
    (forall ind, ind < 4 * 1 * 1 ->
        exists f,
          forces_ Sample4.built !! ind = Some f /\
          values (Sample4.ffti_data_grid Sx
                    (setOrigin Sample4.empty_grid Vec3d.zero)) !! ind
            = Some (Vec3d.x f) /\
          values (Sample4.ffti_data_grid Sy
                    (Sample4.ffti_data_grid Sx
                       (setOrigin Sample4.empty_grid Vec3d.zero))) !! ind
            = Some (Vec3d.y f) /\
          values (Sample4.ffti_data_grid Sz
                    (Sample4.ffti_data_grid Sy
                       (Sample4.ffti_data_grid Sx
                          (setOrigin Sample4.empty_grid Vec3d.zero)))) !! ind
            = Some (Vec3d.z f)).
Proof.
  split; [exact sample4_addresses_apart|].
  split; [vm_compute; reflexivity|].
  apply (force_components_from_spectrum
           Sample4.PI Sample4.toIndex Sample4.fft_data_grid Sample4.ffti_data_grid
           Sample4.empty_grid Sample4.e_potential Sample4.rho_tip Sample4.built).
  - exact sample4_addresses_apart.
  - vm_compute; reflexivity.
Defined.

(** C3 at an odd lattice. With three nodes of spacing 1 the reciprocal
    spacing is [1/3]; the loop leaves [1/3 - 3 * (1/3)], a negative
    wavenumber, at the middle index 1, because [1 >= int(3/2)]; the spec's
    rule gives index 1, which is below [3/2], the positive [1/3]. *)
Lemma k_points_odd_lattice_middle_index :
  exists k v,
    k_points 3 (1 / (of_int 3 * 1))%float = Some k /\
    k !! 1%nat = Some v /\
    v = (of_int 1 * (1 / (of_int 3 * 1)) - of_int 3 * (1 / (of_int 3 * 1)))%float /\
    (v <? 0)%float = true /\
    wavenumber_spec 3 1 1 = (of_int 1 / (of_int 3 * 1))%float /\
    (0 <? wavenumber_spec 3 1 1)%float = true.
Proof.
  do 2 eexists. split; [vm_compute; reflexivity|].
  split; [vm_compute; reflexivity|].
  repeat split; vm_compute; reflexivity.
Qed.

(** ** Closed examples of the further properties *)

(** Coulomb with [qq_ = 1] between the first and the third of four
    particles: the second and the fourth keep their force and energy. *)
Lemma eval_changes_participants_only_witness :
  Sample.eval (CoulombInteraction 0 2 1) SampleMany.positions
      SampleMany.forces SampleMany.energies
    = Some ([Vec3d.mk 2 1 1; Vec3d.mk 2 2 2; Vec3d.mk 2 3 3; Vec3d.mk 7 8 9],
            [2; 2; 4; 4]%float) /\
  length [Vec3d.mk 2 1 1; Vec3d.mk 2 2 2; Vec3d.mk 2 3 3; Vec3d.mk 7 8 9]
    = length SampleMany.forces /\
  length [2; 2; 4; 4]%float = length SampleMany.energies /\
  forall j, j ∉ participants (CoulombInteraction 0 2 1) ->
    [Vec3d.mk 2 1 1; Vec3d.mk 2 2 2; Vec3d.mk 2 3 3; Vec3d.mk 7 8 9] !! j
      = SampleMany.forces !! j /\
    [2; 2; 4; 4]%float !! j = SampleMany.energies !! j.
Proof.
  split; [vm_compute; reflexivity|].
  apply (eval_changes_participants_only
           Sample.unary Sample.binary Sample.acos Sample.unary Sample.unary
           Sample.TOLERANCE Sample.interpolate
           (CoulombInteraction 0 2 1) SampleMany.positions
           SampleMany.forces SampleMany.energies).
  vm_compute; reflexivity.
Defined.

(** Coulomb between the first and the third particle and the wall on the
    fourth, in both orders. *)
Lemma kernels_on_disjoint_particles_commute_witness :
  no_common_index (participants (CoulombInteraction 0 2 1))
                  (participants SampleMany.wall3) /\
  ('(forces, energies) ← Sample.eval (CoulombInteraction 0 2 1) SampleMany.positions
                           SampleMany.forces SampleMany.energies;
   Sample.eval SampleMany.wall3 SampleMany.positions forces energies)
    = Some ([Vec3d.mk 2 1 1; Vec3d.mk 2 2 2; Vec3d.mk 2 3 3; Vec3d.mk 7 8 4041],
            [2; 2; 4; SampleMany.wall3_energy]%float) /\
  ('(forces, energies) ← Sample.eval (CoulombInteraction 0 2 1) SampleMany.positions
                           SampleMany.forces SampleMany.energies;
   Sample.eval SampleMany.wall3 SampleMany.positions forces energies)
    = ('(forces, energies) ← Sample.eval SampleMany.wall3 SampleMany.positions
                               SampleMany.forces SampleMany.energies;
       Sample.eval (CoulombInteraction 0 2 1) SampleMany.positions forces energies).
Proof.
  assert (Hapart : no_common_index (participants (CoulombInteraction 0 2 1))
                                   (participants SampleMany.wall3)).
  { intros i H1 H2. cbn in H1, H2.
    apply list_elem_of_singleton in H2. subst i.
    apply elem_of_cons in H1 as [H1|H1]; [discriminate|].
    apply list_elem_of_singleton in H1. discriminate. }
  split; [exact Hapart|]. split; [vm_compute; reflexivity|].
  apply (kernels_on_disjoint_particles_commute
           Sample.unary Sample.binary Sample.acos Sample.unary Sample.unary
           Sample.TOLERANCE Sample.interpolate
           (CoulombInteraction 0 2 1) SampleMany.wall3 SampleMany.positions
           SampleMany.forces SampleMany.energies Hapart).
Defined.

(** Coulomb with [qq_ = 1] on two particles at the origin. *)
Lemma unguarded_pair_kernels_nan_at_coincidence_witness :
  finite3 Sample.origin = true /\
  Sample.eval (CoulombInteraction 0 1 1) Sample.coincident_pair
      Sample.forces0 Sample.energies0
    = Some ([Vec3d_nan; Vec3d_nan], [infinity; infinity]) /\
  [Vec3d_nan; Vec3d_nan] !! 0%nat = Some Vec3d_nan /\
  [Vec3d_nan; Vec3d_nan] !! 1%nat = Some Vec3d_nan.
Proof.
  split; [vm_compute; reflexivity|]. split; [vm_compute; reflexivity|].
  apply (unguarded_pair_kernels_nan_at_coincidence
           Sample.unary Sample.binary Sample.acos Sample.unary Sample.unary
           Sample.TOLERANCE Sample.interpolate
           (CoulombInteraction 0 1 1) 0%nat 1%nat Sample.coincident_pair Sample.origin
           Sample.forces0 Sample.energies0
           [Vec3d_nan; Vec3d_nan] [infinity; infinity]).
  - reflexivity.
  - lia.
  - reflexivity.
  - reflexivity.
  - vm_compute; reflexivity.
  - vm_compute; reflexivity.
Defined.

(** The angle kernel on the right angle at the third particle; the fourth
    particle stands by. *)
Lemma harmonic_angle_accumulation_witness :
  exists forces' energies',
    Sample.eval (HarmonicAngleInteraction 0 1 2 1 0) SampleMany.positions
        SampleMany.forces SampleMany.energies
      = Some (forces', energies') /\
    exists p1 p2 ps e f1 f2 F1 F2 Fs E1 E2 Es,
      SampleMany.positions !! 0%nat = Some p1 /\ SampleMany.positions !! 1%nat = Some p2 /\
      SampleMany.positions !! 2%nat = Some ps /\
      HarmonicAngle_e_f Sample.binary Sample.acos Sample.unary 1 0 p1 p2 ps = (e, f1, f2) /\
      SampleMany.forces !! 0%nat = Some F1 /\ SampleMany.forces !! 1%nat = Some F2 /\
      SampleMany.forces !! 2%nat = Some Fs /\
      SampleMany.energies !! 0%nat = Some E1 /\ SampleMany.energies !! 1%nat = Some E2 /\
      SampleMany.energies !! 2%nat = Some Es /\
      forces' !! 0%nat = Some (Vec3d.add F1 f1) /\
      forces' !! 1%nat = Some (Vec3d.add F2 f2) /\
      forces' !! 2%nat = Some (Vec3d.sub Fs (Vec3d.add f1 f2)) /\
      energies' !! 0%nat = Some (E1 + e)%float /\
      energies' !! 1%nat = Some (E2 + e)%float /\
      energies' !! 2%nat = Some (Es + e)%float.
Proof.
  do 2 eexists. split; [vm_compute; reflexivity|].
  apply (harmonic_angle_accumulation
           Sample.unary Sample.binary Sample.acos Sample.unary Sample.unary
           Sample.TOLERANCE Sample.interpolate
           0%nat 1%nat 2%nat 1%float 0%float SampleMany.positions
           SampleMany.forces SampleMany.energies).
  - lia.
  - lia.
  - lia.
  - vm_compute; reflexivity.
Defined.

(** The dihedral kernel on the four particles. *)
Lemma harmonic_dihedral_accumulation_witness :
  exists forces' energies',
    Sample.eval (HarmonicDihedralInteraction 0 1 2 3 1 0) SampleMany.positions
        SampleMany.forces SampleMany.energies
      = Some (forces', energies') /\
    exists p1 p2 p3 p4 e f1 f2 f3 f4,
      SampleMany.positions !! 0%nat = Some p1 /\ SampleMany.positions !! 1%nat = Some p2 /\
      SampleMany.positions !! 2%nat = Some p3 /\ SampleMany.positions !! 3%nat = Some p4 /\
      HarmonicDihedral_e_f Sample.binary Sample.unary 1 0 p1 p2 p3 p4
        = (e, f1, f2, f3, f4) /\
      (exists F1, SampleMany.forces !! 0%nat = Some F1 /\
                  forces' !! 0%nat = Some (Vec3d.add F1 f1)) /\
      (exists F2, SampleMany.forces !! 1%nat = Some F2 /\
                  forces' !! 1%nat = Some (Vec3d.add F2 f2)) /\
      (exists F3, SampleMany.forces !! 2%nat = Some F3 /\
                  forces' !! 2%nat = Some (Vec3d.add F3 f3)) /\
      (exists F4, SampleMany.forces !! 3%nat = Some F4 /\
                  forces' !! 3%nat = Some (Vec3d.add F4 f4)) /\
      (forall i, i ∈ [0%nat; 1%nat; 2%nat; 3%nat] ->
         exists E0, SampleMany.energies !! i = Some E0 /\
                    energies' !! i = Some (E0 + e)%float).
Proof.
  do 2 eexists. split; [vm_compute; reflexivity|].
  apply (harmonic_dihedral_accumulation
           Sample.unary Sample.binary Sample.acos Sample.unary Sample.unary
           Sample.TOLERANCE Sample.interpolate
           0%nat 1%nat 2%nat 3%nat 1%float 0%float SampleMany.positions
           SampleMany.forces SampleMany.energies).
  1-6: lia.
  vm_compute; reflexivity.
Defined.

(** The tip restraint with [k_ = 1], [r0_ = 0.5] on the unit pair, beyond
    the tolerance: the forces change along x only. *)
Lemma planar_restraints_add_zero_along_z_witness :
  Sample.eval (TipHarmonicInteraction 0 1 1 0.5) Sample.unit_pair
      Sample.forces0 Sample.energies0
    = Some ([Vec3d.mk (-1) 0 0; Vec3d.mk 1 0 0], [0.25%float; 0.25%float]) /\
  exists old1 old2 new1 new2,
    Sample.forces0 !! 0%nat = Some old1 /\ Sample.forces0 !! 1%nat = Some old2 /\
    [Vec3d.mk (-1) 0 0; Vec3d.mk 1 0 0] !! 0%nat = Some new1 /\
    [Vec3d.mk (-1) 0 0; Vec3d.mk 1 0 0] !! 1%nat = Some new2 /\
    Vec3d.z new1 = (Vec3d.z old1 + 0)%float /\
    Vec3d.z new2 = (Vec3d.z old2 - 0)%float.
Proof.
  split; [vm_compute; reflexivity|].
  apply (proj1 (planar_restraints_add_zero_along_z
                  Sample.unary Sample.binary Sample.acos Sample.unary Sample.unary
                  Sample.TOLERANCE Sample.interpolate)
           0%nat 1%nat 1%float 0.5%float Sample.unit_pair
           Sample.forces0 Sample.energies0
           [Vec3d.mk (-1) 0 0; Vec3d.mk 1 0 0] [0.25%float; 0.25%float]).
  - lia.
  - vm_compute; reflexivity.
Defined.

(** Row-major addressing keeps the four nodes of the sample spectrum
    apart. *)
Lemma sample4_spectrum_addresses_apart :
  addresses_apart Sample4.toIndex
    (n_grid (Sample4.fft_data_grid Sample4.e_potential)) Sample4.lattice.
Proof.
  intros a b c a' b' c'. unfold Sample4.toIndex. simpl. lia.
Defined.

(** The product loop on the four-node sample. *)
Lemma energy_spectrum_nodes_witness :
  energy_spectrum Sample4.toIndex Sample4.lattice (spacing Sample4.e_potential)
    (Sample4.fft_data_grid Sample4.e_potential) (Sample4.fft_data_grid Sample4.rho_tip)
    = Some Sample4.energy_kspace /\
  n_grid Sample4.energy_kspace = n_grid (Sample4.fft_data_grid Sample4.e_potential) /\
  spacing Sample4.energy_kspace = spacing (Sample4.fft_data_grid Sample4.e_potential) /\
  origin Sample4.energy_kspace = origin (Sample4.fft_data_grid Sample4.e_potential) /\
  length (values Sample4.energy_kspace)
    = length (values (Sample4.fft_data_grid Sample4.e_potential)) /\
  forall ix iy iz, ix < 4 -> iy < 1 -> iz < 1 ->
    exists p r,
      at_ Sample4.toIndex (Sample4.fft_data_grid Sample4.e_potential) ix iy iz = Some p /\
      at_ Sample4.toIndex (Sample4.fft_data_grid Sample4.rho_tip) ix iy iz = Some r /\
      at_ Sample4.toIndex Sample4.energy_kspace ix iy iz
        = Some (dcomplex.mul p (dcomplex.scale (0.25 * 1 * 1)%float r)).
Proof.
  split; [vm_compute; reflexivity|].
  apply (energy_spectrum_nodes Sample4.toIndex Sample4.lattice
           (spacing Sample4.e_potential)
           (Sample4.fft_data_grid Sample4.e_potential)
           (Sample4.fft_data_grid Sample4.rho_tip) Sample4.energy_kspace).
  - exact sample4_spectrum_addresses_apart.
  - vm_compute; reflexivity.
Defined.

(** The constructor on the four-node sample hands over a periodic grid of
    four forces whose energies are the potential itself. *)
Lemma build_force_grid_shape_witness :
  Sample4.build_force_grid Sample4.e_potential Sample4.rho_tip = Some Sample4.built /\
  grid_points_ Sample4.built = n_grid Sample4.e_potential /\
  spacing_ Sample4.built = spacing Sample4.e_potential /\
  offset_ Sample4.built = origin Sample4.e_potential /\
  periodic_ Sample4.built = true /\
  length (forces_ Sample4.built) = 4 * 1 * 1 /\
  exists energy_kspace,
    energy_spectrum Sample4.toIndex (n_grid Sample4.e_potential)
      (spacing Sample4.e_potential)
      (Sample4.fft_data_grid Sample4.e_potential) (Sample4.fft_data_grid Sample4.rho_tip)
      = Some energy_kspace /\
    energies_ Sample4.built
      = values (Sample4.ffti_data_grid energy_kspace
                  (setOrigin Sample4.rho_tip (origin Sample4.e_potential))).
Proof.
  split; [vm_compute; reflexivity|].
  apply (build_force_grid_shape
           Sample4.PI Sample4.toIndex Sample4.fft_data_grid Sample4.ffti_data_grid
           Sample4.empty_grid Sample4.e_potential Sample4.rho_tip Sample4.built).
  vm_compute; reflexivity.
Defined.

(** The Gaussian loops with a cutoff of one node on the [3 x 3 x 3]
    lattice: the plane [iz = 1] keeps its zeros. *)
Lemma fill_gaussian_frame_witness :
  SampleBox.fill_gaussian 1 1 1 SampleBox.rho0 = Some SampleBox.filled /\
  values SampleBox.filled !! SampleBox.toIndexPBC SampleBox.lattice 0 0 1 = Some 0%float /\
  n_grid SampleBox.filled = n_grid SampleBox.rho0 /\
  spacing SampleBox.filled = spacing SampleBox.rho0 /\
  origin SampleBox.filled = origin SampleBox.rho0 /\
  length (values SampleBox.filled) = length (values SampleBox.rho0) /\
  forall j,
    (forall ix iy iz, in_gaussian_box 1 ix iy iz ->
       SampleBox.toIndexPBC (n_grid SampleBox.rho0) ix iy iz <> j) ->
    values SampleBox.filled !! j = values SampleBox.rho0 !! j.
Proof.
  split; [vm_compute; reflexivity|]. split; [vm_compute; reflexivity|].
  apply (fill_gaussian_frame Sample.unary Sample.binary Sample4.PI
           SampleBox.toIndexPBC SampleBox.positionAt 1 1 1
           SampleBox.rho0 SampleBox.filled).
  vm_compute; reflexivity.
Defined.

(** Periodic row-major addressing keeps the eighteen nodes of the box of
    cutoff one apart on the [3 x 3 x 3] lattice. *)
Lemma sample_box_addresses_apart :
  forall ix iy iz ix' iy' iz',
    in_gaussian_box 1 ix iy iz -> in_gaussian_box 1 ix' iy' iz' ->
    SampleBox.toIndexPBC (n_grid SampleBox.rho0) ix iy iz
      = SampleBox.toIndexPBC (n_grid SampleBox.rho0) ix' iy' iz' ->
    ix = ix' /\ iy = iy' /\ iz = iz'.
Proof.
  intros ix iy iz ix' iy' iz' (Hx & Hy & Hz) (Hx' & Hy' & Hz').
  unfold SampleBox.toIndexPBC, Sample4.toIndex, SampleBox.wrap. cbn.
  intros Heq.
  pose proof (Z.mod_pos_bound ix 3). pose proof (Z.mod_pos_bound iy 3).
  pose proof (Z.mod_pos_bound iz 3). pose proof (Z.mod_pos_bound ix' 3).
  pose proof (Z.mod_pos_bound iy' 3). pose proof (Z.mod_pos_bound iz' 3).
  pose proof (Z.div_mod ix 3). pose proof (Z.div_mod iy 3).
  pose proof (Z.div_mod iz 3). pose proof (Z.div_mod ix' 3).
  pose proof (Z.div_mod iy' 3). pose proof (Z.div_mod iz' 3).
  lia.
Defined.

(** The Gaussian loops with a cutoff of one node on the [3 x 3 x 3]
    lattice: the node [(1, -1, -1)] holds the charge computed at its
    position. *)
Lemma fill_gaussian_values_witness :
  SampleBox.fill_gaussian 1 1 1 SampleBox.rho0 = Some SampleBox.filled /\
  in_gaussian_box 1 1 (-1) (-1) /\
  values SampleBox.filled !! SampleBox.toIndexPBC (n_grid SampleBox.rho0) 1 (-1) (-1)
    = Some (gaussian_charge Sample.unary Sample.binary Sample4.PI 1 1
              (SampleBox.positionAt (n_grid SampleBox.rho0) (spacing SampleBox.rho0)
                 (origin SampleBox.rho0) 1 (-1) (-1))).
Proof.
  split; [vm_compute; reflexivity|].
  assert (Hbox : in_gaussian_box 1 1 (-1) (-1)) by (unfold in_gaussian_box; lia).
  split; [exact Hbox|].
  apply (fill_gaussian_values Sample.unary Sample.binary Sample4.PI
           SampleBox.toIndexPBC SampleBox.positionAt 1 1 1
           SampleBox.rho0 SampleBox.filled sample_box_addresses_apart).
  - vm_compute; reflexivity.
  - exact Hbox.
Defined.
